(** * A shallow embedding of the parse callbacks and the directory cache of Please

    Sources embedded:
    - [src/src/cache/dir_cache.go]: [Store], [StoreExtra], [Retrieve],
      [RetrieveExtra], [getPath], [fileMode];
    - [src/src/parse/interpreter.go]: [addTarget], [getTargetPost], the
      post-build callbacks, [AddDep], [AddExportedDep], [parseSource],
      [AddSource], [AddNamedSource], [AddData], [GetSubincludeFile],
      [Glob], [glob], [GetLabels].

    Go panics are modelled as the [Panic] outcome of a small error monad.
    Functions of the [core] package are not part of the sources; where a
    property depends on them they are either parameters of a [Section] or
    definitions marked "Modelled from the spec". *)

From Stdlib Require Import ZArith Ascii.
From stdpp Require Import base gmap sets list strings sorting.

Set Warnings "-register-all".

(** ** The [core] data model *)
Module Core.

Record BuildLabel := mkLabel { PackageName : string; Name : string }.

#[global] Instance BuildLabel_eq_dec : EqDecision BuildLabel.
Proof. solve_decision. Defined.

(** Target states, in increasing order (spec 4.3). *)
Inductive BuildTargetState := Inactive | Active | Pending | Building | Built | Failed.

Definition state_index (s : BuildTargetState) : nat :=
  match s with
  | Inactive => 0 | Active => 1 | Pending => 2
  | Building => 3 | Built => 4 | Failed => 5
  end.

(** [a < b] on states, as Go compares the underlying integers. *)
Definition state_ltb (a b : BuildTargetState) : bool :=
  Nat.ltb (state_index a) (state_index b).

(** The fields of [core.BuildTarget] the callbacks read or write.
    [Dependencies] are the resolved dependency targets ([[]*BuildTarget]);
    a finished build graph is acyclic, so its unfolding is a finite tree. *)
Inductive BuildTarget := mkTarget {
  Label : BuildLabel;
  Command : string;
  TestCommand : string;
  IsBinary : bool;
  IsTest : bool;
  NeedsTransitiveDependencies : bool;
  OutputIsComplete : bool;
  Containerise : bool;
  NoTestOutput : bool;
  SkipCache : bool;
  TestOnly : bool;
  Flakiness : Z;
  BuildTimeout : Z;
  TestTimeout : Z;
  BuildingDescription : string;
  Labels : list string;
  Outputs : list string;
  DeclaredDependencies : list BuildLabel;
  ExportedDependencies : list BuildLabel;
  Licences : list string;
  Visibility : list BuildLabel;
  State : BuildTargetState;
  Dependencies : list BuildTarget
}.

(** Modelled from the spec: the default building description of [core],
    which is not in the sources. [addTarget] only overrides it with a
    non-empty description, so [core] supplies a non-empty default; its
    text is not in the sources, and no property proved here depends on
    it. *)
Definition DefaultBuildingDescription : string := "Building...".

(** Modelled from the spec: [core.NewBuildTarget], not in the sources:
    every collection empty, state [Inactive], the default building
    description. *)
Definition NewBuildTarget (l : BuildLabel) : BuildTarget :=
  mkTarget l "" "" false false false false false false false false
    0 0 0 DefaultBuildingDescription [] [] [] [] [] [] Inactive [].

(** Field updates (Go assigns through the pointer). *)
Definition set_flags (t : BuildTarget) (binary test ntd oic cont nto skip tonly : bool)
    (flak bt tt : Z) : BuildTarget :=
  mkTarget (Label t) (Command t) (TestCommand t) binary test ntd oic cont nto skip tonly
    flak bt tt (BuildingDescription t) (Labels t) (Outputs t) (DeclaredDependencies t)
    (ExportedDependencies t) (Licences t) (Visibility t) (State t) (Dependencies t).

Definition set_Command (t : BuildTarget) (c : string) : BuildTarget :=
  mkTarget (Label t) c (TestCommand t) (IsBinary t) (IsTest t)
    (NeedsTransitiveDependencies t) (OutputIsComplete t) (Containerise t)
    (NoTestOutput t) (SkipCache t) (TestOnly t) (Flakiness t) (BuildTimeout t)
    (TestTimeout t) (BuildingDescription t) (Labels t) (Outputs t)
    (DeclaredDependencies t) (ExportedDependencies t) (Licences t) (Visibility t)
    (State t) (Dependencies t).

Definition set_TestCommand (t : BuildTarget) (c : string) : BuildTarget :=
  mkTarget (Label t) (Command t) c (IsBinary t) (IsTest t)
    (NeedsTransitiveDependencies t) (OutputIsComplete t) (Containerise t)
    (NoTestOutput t) (SkipCache t) (TestOnly t) (Flakiness t) (BuildTimeout t)
    (TestTimeout t) (BuildingDescription t) (Labels t) (Outputs t)
    (DeclaredDependencies t) (ExportedDependencies t) (Licences t) (Visibility t)
    (State t) (Dependencies t).

Definition set_BuildingDescription (t : BuildTarget) (d : string) : BuildTarget :=
  mkTarget (Label t) (Command t) (TestCommand t) (IsBinary t) (IsTest t)
    (NeedsTransitiveDependencies t) (OutputIsComplete t) (Containerise t)
    (NoTestOutput t) (SkipCache t) (TestOnly t) (Flakiness t) (BuildTimeout t)
    (TestTimeout t) d (Labels t) (Outputs t)
    (DeclaredDependencies t) (ExportedDependencies t) (Licences t) (Visibility t)
    (State t) (Dependencies t).

Definition set_Labels (t : BuildTarget) (ls : list string) : BuildTarget :=
  mkTarget (Label t) (Command t) (TestCommand t) (IsBinary t) (IsTest t)
    (NeedsTransitiveDependencies t) (OutputIsComplete t) (Containerise t)
    (NoTestOutput t) (SkipCache t) (TestOnly t) (Flakiness t) (BuildTimeout t)
    (TestTimeout t) (BuildingDescription t) ls (Outputs t)
    (DeclaredDependencies t) (ExportedDependencies t) (Licences t) (Visibility t)
    (State t) (Dependencies t).

Definition set_Outputs (t : BuildTarget) (os : list string) : BuildTarget :=
  mkTarget (Label t) (Command t) (TestCommand t) (IsBinary t) (IsTest t)
    (NeedsTransitiveDependencies t) (OutputIsComplete t) (Containerise t)
    (NoTestOutput t) (SkipCache t) (TestOnly t) (Flakiness t) (BuildTimeout t)
    (TestTimeout t) (BuildingDescription t) (Labels t) os
    (DeclaredDependencies t) (ExportedDependencies t) (Licences t) (Visibility t)
    (State t) (Dependencies t).

Definition set_DeclaredDependencies (t : BuildTarget) (ds : list BuildLabel) : BuildTarget :=
  mkTarget (Label t) (Command t) (TestCommand t) (IsBinary t) (IsTest t)
    (NeedsTransitiveDependencies t) (OutputIsComplete t) (Containerise t)
    (NoTestOutput t) (SkipCache t) (TestOnly t) (Flakiness t) (BuildTimeout t)
    (TestTimeout t) (BuildingDescription t) (Labels t) (Outputs t)
    ds (ExportedDependencies t) (Licences t) (Visibility t)
    (State t) (Dependencies t).

Definition set_ExportedDependencies (t : BuildTarget) (ds : list BuildLabel) : BuildTarget :=
  mkTarget (Label t) (Command t) (TestCommand t) (IsBinary t) (IsTest t)
    (NeedsTransitiveDependencies t) (OutputIsComplete t) (Containerise t)
    (NoTestOutput t) (SkipCache t) (TestOnly t) (Flakiness t) (BuildTimeout t)
    (TestTimeout t) (BuildingDescription t) (Labels t) (Outputs t)
    (DeclaredDependencies t) ds (Licences t) (Visibility t)
    (State t) (Dependencies t).

Definition set_Licences (t : BuildTarget) (ls : list string) : BuildTarget :=
  mkTarget (Label t) (Command t) (TestCommand t) (IsBinary t) (IsTest t)
    (NeedsTransitiveDependencies t) (OutputIsComplete t) (Containerise t)
    (NoTestOutput t) (SkipCache t) (TestOnly t) (Flakiness t) (BuildTimeout t)
    (TestTimeout t) (BuildingDescription t) (Labels t) (Outputs t)
    (DeclaredDependencies t) (ExportedDependencies t) ls (Visibility t)
    (State t) (Dependencies t).

(** Set-like appends of the [core] target methods.
    Modelled from the spec: [labels], [dependencies] and
    [exportedDependencies] are sets (spec 3), so a second insertion of the
    same element leaves them unchanged. *)
Definition set_add {A} `{EqDecision A} (x : A) (xs : list A) : list A :=
  if decide (x ∈ xs) then xs else xs ++ [x].

Definition AddLabel (t : BuildTarget) (l : string) : BuildTarget :=
  set_Labels t (set_add l (Labels t)).

Definition AddDependency (t : BuildTarget) (dep : BuildLabel) : BuildTarget :=
  set_DeclaredDependencies t (set_add dep (DeclaredDependencies t)).

Definition AddExportedDependency (t : BuildTarget) (dep : BuildLabel) : BuildTarget :=
  set_ExportedDependencies t (set_add dep (ExportedDependencies t)).

(** Modelled from the spec: [outputs] keep the order of the [AddOut] calls
    (spec 5). *)
Definition AddOutput (t : BuildTarget) (o : string) : BuildTarget :=
  set_Outputs t (Outputs t ++ [o]).

Definition AddLicence (t : BuildTarget) (l : string) : BuildTarget :=
  set_Licences t (Licences t ++ [l]).

End Core.

Import Core.

(** ** Errors and the panic monad *)

(** The panics of the callbacks, named as in spec 7. *)
Inductive Err :=
  | UnknownTarget | ImmutableBuiltTarget | DuplicateTarget
  | TestCommandWithoutTest | TestWithoutTestCommand
  | InvalidPath | AbsolutePath | CrossPackageFile | IndexOutOfRange
  | Unsubincludable | VisibilityViolation | MultipleOutputs
  | DuplicateOutput | DuplicateGraphTarget | NotBuilding
  | GlobError | NonTermination | InvalidLabel.

Inductive result (A : Type) := Ok (a : A) | Panic (e : Err).
Arguments Ok {A} a.
Arguments Panic {A} e.

Definition rbind {A B} (m : result A) (k : A -> result B) : result B :=
  match m with Ok a => k a | Panic e => Panic e end.

Notation "'let!' x := m 'in' k" := (rbind m (fun x => k))
  (at level 200, x name, m at level 100, k at level 200).

(** ** Go's [strings] and [path] helpers *)
Module GoStrings.

(** [strings.Split(s, "/")]. *)
Fixpoint split_slash (s : string) : list string :=
  match s with
  | EmptyString => [""]
  | String c rest =>
      let parts := split_slash rest in
      if bool_decide (c = "/"%char) then "" :: parts
      else match parts with
           | p :: ps => String c p :: ps
           | [] => [String c ""]
           end
  end.

(** [strings.HasPrefix]. *)
Definition HasPrefix (s pre : string) : bool := String.prefix pre s.

(** [strings.Contains]. *)
Definition Contains (s sub : string) : bool :=
  match String.index 0 sub s with Some _ => true | None => false end.

(** [strings.HasSuffix]. *)
Definition HasSuffix (s suf : string) : bool :=
  String.prefix (String.rev suf) (String.rev s).

(** [strings.TrimPrefix]. *)
Definition TrimPrefix (s pre : string) : string :=
  if HasPrefix s pre then String.substring (String.length pre) (String.length s) s else s.

(** The UTF-8 encodings of the code points [unicode.IsSpace] accepts:
    tab, newline, vertical tab, form feed, carriage return, space, U+0085,
    U+00A0, U+1680, U+2000 to U+200A, U+2028, U+2029, U+202F, U+205F and
    U+3000. *)
Definition byte (n : nat) : string := String (ascii_of_nat n) EmptyString.

Definition unicode_spaces : list string :=
  [byte 9; byte 10; byte 11; byte 12; byte 13; byte 32;
   byte 194 +:+ byte 133; byte 194 +:+ byte 160;
   byte 225 +:+ byte 154 +:+ byte 128] ++
  map (fun k => byte 226 +:+ byte 128 +:+ byte (128 + k)) (seq 0 11) ++
  [byte 226 +:+ byte 128 +:+ byte 168; byte 226 +:+ byte 128 +:+ byte 169;
   byte 226 +:+ byte 128 +:+ byte 175; byte 226 +:+ byte 129 +:+ byte 159;
   byte 227 +:+ byte 128 +:+ byte 128].

(** Removing leading spaces; each step removes at least one byte, so the
    length of the string bounds the steps. *)
Fixpoint trim_left_go (fuel : nat) (s : string) : string :=
  match fuel with
  | O => s
  | S f =>
      match find (fun sp => HasPrefix s sp) unicode_spaces with
      | Some sp => trim_left_go f (String.substring (String.length sp) (String.length s) s)
      | None => s
      end
  end.

Definition trim_left (s : string) : string := trim_left_go (String.length s) s.

Fixpoint trim_right_go (fuel : nat) (s : string) : string :=
  match fuel with
  | O => s
  | S f =>
      match find (fun sp => HasSuffix s sp) unicode_spaces with
      | Some sp => trim_right_go f (String.substring 0 (String.length s - String.length sp) s)
      | None => s
      end
  end.

Definition trim_right (s : string) : string := trim_right_go (String.length s) s.

(** [strings.TrimSpace]: [TrimRightFunc] of [TrimLeftFunc] with
    [unicode.IsSpace]. *)
Definition TrimSpace (s : string) : string := trim_right (trim_left s).

End GoStrings.

(** ** Go's [path] package (slash-separated paths as strings) *)
Module GoPath.
Import GoStrings.

(** The lexical step of [path.Clean] over the components ([acc] reversed):
    empty and ["."] components vanish, [".."] removes the last real
    component, and a leading [".."] survives unless the path is rooted. *)
Fixpoint clean_comps (rooted : bool) (cs : list string) (acc : list string) : list string :=
  match cs with
  | [] => rev acc
  | c :: cs' =>
      if bool_decide (c = "") || bool_decide (c = ".") then clean_comps rooted cs' acc
      else if bool_decide (c = "..") then
        match acc with
        | x :: acc' => if bool_decide (x = "..") then clean_comps rooted cs' (".." :: acc)
                       else clean_comps rooted cs' acc'
        | [] => if rooted then clean_comps rooted cs' [] else clean_comps rooted cs' [".."]
        end
      else clean_comps rooted cs' (c :: acc)
  end.

(** [path.Clean]. *)
Definition Clean (p : string) : string :=
  match p with
  | EmptyString => "."
  | String c _ =>
      let rooted := bool_decide (c = "/"%char) in
      let body := String.concat "/" (clean_comps rooted (split_slash p) []) in
      if rooted then "/" +:+ body
      else match body with EmptyString => "." | _ => body end
  end.

(** [path.Join] of two elements. *)
Definition Join (a b : string) : string :=
  match a, b with
  | EmptyString, EmptyString => ""
  | EmptyString, _ => Clean b
  | _, _ => Clean (a +:+ "/" +:+ b)
  end.

(** [path.Split]: everything up to and including the last slash, and the
    rest. *)
Definition Split (p : string) : string * string :=
  let cs := split_slash p in
  (match cs with
   | [_] => ""
   | _ => String.concat "/" (removelast cs) +:+ "/"
   end, List.last cs "").

(** [path.Dir]. *)
Definition Dir (p : string) : string := Clean (fst (Split p)).

End GoPath.

Import GoPath.

Import GoStrings.

(** ** [src/src/cache/dir_cache.go] *)
Module DirCache.

(** A path is the list of its components: [path.Join] of clean relative
    components is concatenation and [path.Dir] drops the last one. *)
Definition path := list string.

(** A filesystem entry: a directory, or a file with contents and mode. *)
Inductive node := NDir | NFile (data : string) (mode : Z).

#[global] Instance node_eq_dec : EqDecision node.
Proof. solve_decision. Defined.

(** The filesystem maps each path to the entry found there, if any. *)
Definition FS := path -> option node.

Fixpoint is_prefix (p q : path) : bool :=
  match p, q with
  | [], _ => true
  | x :: p', y :: q' => bool_decide (x = y) && is_prefix p' q'
  | _ :: _, [] => false
  end.

Fixpoint strip_prefix (p q : path) : option path :=
  match p, q with
  | [], _ => Some q
  | x :: p', y :: q' => if bool_decide (x = y) then strip_prefix p' q' else None
  | _ :: _, [] => None
  end.

(** The non-empty prefixes of a path: the directories [os.MkdirAll] walks. *)
Fixpoint prefixes (p : path) : list path :=
  match p with
  | [] => []
  | x :: p' => [x] :: map (cons x) (prefixes p')
  end.

Definition is_file (o : option node) : bool :=
  match o with Some (NFile _ _) => true | _ => false end.

(** [core.PathExists]. *)
Definition PathExists (p : path) (fs : FS) : bool :=
  match fs p with Some _ => true | None => false end.

(** [os.RemoveAll]: removes [p] and everything below it; a missing path is
    not an error. *)
Definition RemoveAll (p : path) (fs : FS) : FS :=
  fun q => if is_prefix p q then None else fs q.

(** [os.MkdirAll]: fails when a file is in the way, otherwise creates the
    missing directories along [p]. *)
Definition MkdirAll (p : path) (fs : FS) : option FS :=
  if existsb (fun q => is_file (fs q)) (prefixes p) then None
  else Some (fun q => if bool_decide (q <> []) && is_prefix q p
                      then match fs q with None => Some NDir | o => o end
                      else fs q).

Definition set_mode (mode : Z) (o : option node) : option node :=
  match o with Some (NFile d _) => Some (NFile d mode) | o => o end.

(** Modelled from the spec: [core.RecursiveCopyFile] (not in the sources).
    It fails when the source is missing; otherwise the tree below [from] is
    reproduced below [to] (by copy, or by hard link when [link] is set) and
    every file placed there gets [mode] (spec 4.4, "File mode: 0555 for
    binary targets, 0444 otherwise"). *)
Definition RecursiveCopyFile (from to : path) (mode : Z) (link : bool) (fs : FS)
    : option FS :=
  if PathExists from fs then
    Some (fun r => match strip_prefix to r with
                   | Some s => match fs (from ++ s) with
                               | None => fs r
                               | o => set_mode mode o
                               end
                   | None => fs r
                   end)
  else None.

(** [path.Dir] of a component list; [[]] is Go's ["."]. *)
Definition Dir (p : path) : path := removelast p.

(** The components of a relative path string, dropping empty and [.]
    components. A [..] component is kept as an ordinary name, whereas Go's
    [path.Join] in [getPath], [StoreExtra] and [RetrieveExtra] resolves
    it against the component before it: the model and the code agree on
    paths without a [..] component, and properties of where files land
    are stated for such paths only. *)
Definition path_of (s : string) : path :=
  filter (fun c => negb (bool_decide (c = "")) && negb (bool_decide (c = ".")))
    (split_slash s).

(** Modelled from the spec: [cacheArtifacts] (not in the sources) yields
    the artifacts of the target, its declared file outputs (glossary:
    "Artifact. A file output declared by a target."). *)
Definition cacheArtifacts (t : BuildTarget) : list path :=
  map path_of (Outputs t).

(** [fileMode]: 0555 = 365 for binaries, 0444 = 292 otherwise. *)
Definition fileMode (t : BuildTarget) : Z :=
  if IsBinary t then 365%Z else 292%Z.

Record dirCache := { CacheDir : path }.

Section Cache.
(** [base64.URLEncoding.EncodeToString(core.CollapseHash(key))]. *)
Variable encodeKey : string -> string.
(** [path.Join(core.RepoRoot, target.OutDir())]. *)
Variable outDir : BuildTarget -> path.

Definition getPath (cache : dirCache) (t : BuildTarget) (key : string) : path :=
  CacheDir cache ++ path_of (PackageName (Label t)) ++ [Name (Label t); encodeKey key].

(** Errors of [StoreExtra] are logged and the function returns. *)
Definition StoreExtra (cache : dirCache) (t : BuildTarget) (key : string)
    (out : path) (fs : FS) : FS :=
  let cacheDir := getPath cache t key in
  match (if bool_decide (Dir out = []) then Some fs
         else MkdirAll (cacheDir ++ Dir out) fs) with
  | None => fs
  | Some fs1 =>
      let outFile := outDir t ++ out in
      let cachedFile := cacheDir ++ out in
      let fs2 := RemoveAll cachedFile fs1 in
      match MkdirAll cacheDir fs2 with
      | None => fs2
      | Some fs3 =>
          match RecursiveCopyFile outFile cachedFile (fileMode t) false fs3 with
          | None => fs3
          | Some fs4 => fs4
          end
      end
  end.

Definition Store (cache : dirCache) (t : BuildTarget) (key : string) (fs : FS) : FS :=
  let cacheDir := getPath cache t key in
  fold_left (fun fs out => StoreExtra cache t key out fs) (cacheArtifacts t)
    (RemoveAll cacheDir fs).

Definition RetrieveExtra (cache : dirCache) (t : BuildTarget) (key : string)
    (out : path) (fs : FS) : bool * FS :=
  let cacheDir := getPath cache t key in
  let cachedOut := cacheDir ++ out in
  let realOut := outDir t ++ out in
  if negb (PathExists cachedOut fs) then (false, fs) else
  match (if bool_decide (Dir realOut = []) then Some fs
         else MkdirAll (Dir realOut) fs) with
  | None => (false, fs)
  | Some fs1 =>
      let fs2 := RemoveAll realOut fs1 in
      match RecursiveCopyFile cachedOut realOut (fileMode t) true fs2 with
      | None => (false, fs2)
      | Some fs3 => (true, fs3)
      end
  end.

(** The loop over [cacheArtifacts], returning at the first miss. *)
Fixpoint retrieve_all (cache : dirCache) (t : BuildTarget) (key : string)
    (outs : list path) (fs : FS) : bool * FS :=
  match outs with
  | [] => (true, fs)
  | out :: rest =>
      let '(ok, fs1) := RetrieveExtra cache t key out fs in
      if ok then retrieve_all cache t key rest fs1 else (false, fs1)
  end.

Definition Retrieve (cache : dirCache) (t : BuildTarget) (key : string) (fs : FS)
    : bool * FS :=
  let cacheDir := getPath cache t key in
  if negb (PathExists cacheDir fs) then (false, fs)
  else retrieve_all cache t key (cacheArtifacts t) fs.
End Cache.

(** Every proper ancestor of an entry is a directory. *)
Definition fs_wf (fs : FS) : Prop :=
  forall q r, q <> [] -> r <> [] -> fs (q ++ r) <> None -> fs q = Some NDir.

(** Neither directory lies below the other. *)
Definition disjoint (a b : path) : Prop := forall x y, a ++ x <> b ++ y.

(** Every file that differs between [g] and [g'] carries mode [m] in [g']. *)
Definition created_with_mode (m : Z) (g g' : FS) : Prop :=
  forall r d mo, g' r = Some (NFile d mo) -> g' r <> g r -> mo = m.

End DirCache.

(** ** The interpreter callbacks *)
Module Interp.
Import GoStrings GoPath.

#[global] Program Instance BuildLabel_countable : Countable BuildLabel :=
  inj_countable' (fun l => (PackageName l, Name l)) (fun p => mkLabel p.1 p.2) _.
Next Obligation. by intros []. Qed.

(** [core.Package]: its targets by name and the owner of each output file. *)
Record Package := mkPackage {
  PkgName : string;
  Targets : gmap string BuildTarget;
  PkgOutputs : gmap string string
}.

(** The state the callbacks share. A Go pointer to a package is its name,
    a pointer to a target is its label: the object itself is stored once,
    in [Packages], so the graph and the package see the same target.
    [GraphPackages] and [GraphTargets] are what [core.State.Graph] holds;
    [Deferred] records the [deferParse] calls. *)
Record World := mkWorld {
  Packages : gmap string Package;
  GraphPackages : gset string;
  GraphTargets : list BuildLabel;
  GraphEdges : list (BuildLabel * BuildLabel);
  Deferred : list (BuildLabel * string)
}.

Definition pkg_obj (w : World) (pkg : string) : Package :=
  default (mkPackage pkg ∅ ∅) (Packages w !! pkg).

Definition set_pkg (w : World) (pkg : string) (p : Package) : World :=
  mkWorld (<[pkg := p]> (Packages w)) (GraphPackages w) (GraphTargets w)
    (GraphEdges w) (Deferred w).

Definition set_target (w : World) (pkg name : string) (t : BuildTarget) : World :=
  let p := pkg_obj w pkg in
  set_pkg w pkg (mkPackage (PkgName p) (<[name := t]> (Targets p)) (PkgOutputs p)).

(** The object a target pointer denotes. *)
Definition target_at (w : World) (l : BuildLabel) : option BuildTarget :=
  Targets (pkg_obj w (PackageName l)) !! Name l.

(** [core.State.Graph.Package(name) != nil]. *)
Definition graph_Package (w : World) (name : string) : bool :=
  bool_decide (name ∈ GraphPackages w).

(** [core.State.Graph.Target(label)]. *)
Definition graph_Target (w : World) (l : BuildLabel) : option BuildTarget :=
  if bool_decide (l ∈ GraphTargets w) then target_at w l else None.

(** Modelled from the spec: [Graph.AddTarget] (spec 4.2, "Detects duplicate
    labels"). *)
Definition graph_AddTarget (w : World) (t : BuildTarget) : result World :=
  if bool_decide (Label t ∈ GraphTargets w) then Panic DuplicateGraphTarget
  else Ok (mkWorld (Packages w) (GraphPackages w) (GraphTargets w ++ [Label t])
             (GraphEdges w) (Deferred w)).

(** Modelled from the spec: [Graph.AddDependency] records the edge. *)
Definition graph_AddDependency (w : World) (from to : BuildLabel) : World :=
  mkWorld (Packages w) (GraphPackages w) (GraphTargets w)
    (GraphEdges w ++ [(from, to)]) (Deferred w).

(** Modelled from the spec: [Package.RegisterOutput] fails when another
    target of the package already claims the file (spec 4.2). *)
Definition RegisterOutput (p : Package) (out : string) (t : BuildTarget) : result Package :=
  match PkgOutputs p !! out with
  | Some n => if bool_decide (n = Name (Label t)) then Ok p else Panic DuplicateOutput
  | None => Ok (mkPackage (PkgName p) (Targets p) (<[out := Name (Label t)]> (PkgOutputs p)))
  end.

(** Modelled from the spec: [deferParse] records a deferred parse for
    [(label, current package)] (spec 4.6). *)
Definition deferParse (w : World) (l : BuildLabel) (pkg : string) : World :=
  mkWorld (Packages w) (GraphPackages w) (GraphTargets w) (GraphEdges w)
    (Deferred w ++ [(l, pkg)]).

(** Inputs of a target: a build label, a file of a build label's output, or
    a file of a package ([core.BuildInput]). *)
Inductive BuildInput :=
  | InLabel (l : BuildLabel)
  | InFileLabel (l : BuildLabel) (file : string)
  | InFile (file : string) (pkg : string).

(** [BuildInput.Label()]. *)
Definition input_label (i : BuildInput) : option BuildLabel :=
  match i with InLabel l | InFileLabel l _ => Some l | InFile _ _ => None end.

(** The input lists [AddSource], [AddNamedSource] and [AddData] append to. *)
Record Inputs := mkInputs {
  Sources : list BuildInput;
  NamedSources : list (string * BuildInput);
  Data : list BuildInput
}.

(** Modelled from the spec: [core.LooksLikeABuildLabel], a string starting
    with [//] or [:] (spec 4.7). *)
Definition LooksLikeABuildLabel (s : string) : bool :=
  HasPrefix s "//" || HasPrefix s ":".

Inductive SubincludeResult := DEFER | SubincludePath (p : string).

(** The result of one of [core]'s label parsers: its panic on a malformed
    label is [InvalidLabel]. *)
Definition parsed {A} (o : option A) : result A :=
  match o with Some a => Ok a | None => Panic InvalidLabel end.

Section Callbacks.
(** [core.ParseBuildFileLabel]: a label and the file it names, if any;
    [None] on a malformed label (such as [//a:b:c]), on which [core]
    panics (see [parsed]). *)
Variable ParseBuildFileLabel : string -> string -> option (BuildLabel * string).
(** [core.ParseBuildLabel], partial in the same way. *)
Variable ParseBuildLabel : string -> string -> option BuildLabel.
(** [BuildTarget.CanSee]. *)
Variable CanSee : BuildTarget -> BuildTarget -> bool.
(** [BuildTarget.OutDir]. *)
Variable OutDir : BuildTarget -> string.
(** [core.FileExists] and the configured build file names. *)
Variable FileExists : string -> bool.
Variable buildFileNames : list string.

(** [isPackage] (its memo table only caches this function). *)
Definition isPackage (name : string) : bool :=
  existsb (fun b => FileExists (Join name b)) buildFileNames.

(** [addTarget]; Go returns the new target's pointer, here its label. *)
Definition addTarget (w : World) (pkg name cmd testCmd : string)
    (binary test needsTransitiveDeps outputIsComplete containerise noTestOutput
     skipCache testOnly : bool) (flakiness buildTimeout testTimeout : Z)
    (buildingDescription : string) : result (World * BuildLabel) :=
  let p := pkg_obj w pkg in
  let t0 := set_flags (NewBuildTarget (mkLabel (PkgName p) name)) binary test
              needsTransitiveDeps outputIsComplete containerise noTestOutput skipCache
              testOnly flakiness buildTimeout testTimeout in
  let t1 := if containerise then AddLabel t0 "container" else t0 in
  let t2 := if bool_decide (buildingDescription <> "")
            then set_BuildingDescription t1 buildingDescription else t1 in
  let t3 := if binary then AddLabel t2 "bin" else t2 in
  let target := set_TestCommand (set_Command t3 cmd) testCmd in
  if bool_decide (is_Some (Targets p !! name)) then Panic DuplicateTarget
  else if bool_decide (TestCommand target <> "") && negb (IsTest target)
  then Panic TestCommandWithoutTest
  else if IsTest target && bool_decide (TestCommand target = "")
  then Panic TestWithoutTestCommand
  else
    let w1 := set_target w pkg name target in
    if graph_Package w1 (PkgName p) then
      let! w2 := graph_AddTarget w1 target in Ok (w2, Label target)
    else Ok (w1, Label target).

(** [getTargetPost]. *)
Definition getTargetPost (w : World) (pkg name : string) : result BuildTarget :=
  match Targets (pkg_obj w pkg) !! name with
  | None => Panic UnknownTarget
  | Some target =>
      if negb (state_ltb (State target) Built) then Panic ImmutableBuiltTarget
      else Ok target
  end.

(** The [AddDependency] callback (named [AddDependencyPost] here, beside
    the target method [AddDependency]). *)
Definition AddDependencyPost (w : World) (pkg name cDep : string) (exported : bool)
    : result World :=
  let! target := getTargetPost w pkg name in
  let! depf := parsed (ParseBuildFileLabel cDep (PackageName (Label target))) in
  let dep := fst depf in
  let t1 := AddDependency target dep in
  let t2 := if exported then AddExportedDependency t1 dep else t1 in
  Ok (graph_AddDependency (set_target w pkg name t2) (Label t2) dep).

Definition AddOutputPost (w : World) (pkg name out : string) : result World :=
  let! target := getTargetPost w pkg name in
  let! p' := RegisterOutput (pkg_obj w pkg) out target in
  Ok (set_target (set_pkg w pkg p') pkg name (AddOutput target out)).

Definition AddLicencePost (w : World) (pkg name licence : string) : result World :=
  let! target := getTargetPost w pkg name in
  Ok (set_target w pkg name (AddLicence target licence)).

Definition SetCommand (w : World) (pkg name command : string) : result World :=
  let! target := getTargetPost w pkg name in
  Ok (set_target w pkg name (set_Command target command)).

(** Through a target pointer; a pointer handed out by [addTarget] always
    denotes a stored target, the [None] branch is never taken. The update
    may panic (in the label parser). *)
Definition with_target (w : World) (l : BuildLabel)
    (f : BuildTarget -> result BuildTarget) : result World :=
  match target_at w l with
  | Some t => let! t' := f t in Ok (set_target w (PackageName l) (Name l) t')
  | None => Ok w
  end.

Definition AddDep (w : World) (l : BuildLabel) (cDep : string) : result World :=
  with_target w l (fun target =>
    let! depf := parsed (ParseBuildFileLabel cDep (PackageName (Label target))) in
    let dep := fst depf in
    Ok (AddDependency target dep)).

Definition AddExportedDep (w : World) (l : BuildLabel) (cDep : string) : result World :=
  with_target w l (fun target =>
    let! depf := parsed (ParseBuildFileLabel cDep (PackageName (Label target))) in
    let dep := fst depf in
    Ok (AddExportedDependency (AddDependency target dep) dep)).

(** The loop of [parseSource] over the parent directories of the file.
    Each step drops a component, so [fuel] larger than the path's length
    is never exhausted. *)
Fixpoint check_dirs (fuel : nat) (packageName dir : string) : result unit :=
  match fuel with
  | O => Panic NonTermination
  | S f =>
      if bool_decide (dir <> packageName) && bool_decide (dir <> ".") then
        if isPackage dir then Panic CrossPackageFile
        else check_dirs f packageName (Dir dir)
      else Ok tt
  end.

(** [parseSource]. [src[0]] on the empty string is Go's index-out-of-range
    panic. *)
Definition parseSource (src packageName : string) : result BuildInput :=
  if LooksLikeABuildLabel src then
    let! lf := parsed (ParseBuildFileLabel src packageName) in
    let '(label, file) := lf in
    if bool_decide (file <> "") then Ok (InFileLabel label file) else Ok (InLabel label)
  else if Contains src "../" then Panic InvalidPath
  else match src with
       | EmptyString => Panic IndexOutOfRange
       | String c _ =>
           if bool_decide (c = "/"%char) then Panic AbsolutePath
           else if Contains src "/" then
             let j := Join packageName src in
             let! _ := check_dirs (S (String.length j)) packageName (Dir j) in
             Ok (InFile src packageName)
           else Ok (InFile src packageName)
       end.

Definition AddSource (target : BuildTarget) (ins : Inputs) (cSource : string)
    : result (BuildTarget * Inputs) :=
  let! source := parseSource cSource (PackageName (Label target)) in
  let ins' := mkInputs (Sources ins ++ [source]) (NamedSources ins) (Data ins) in
  match input_label source with
  | Some l => Ok (AddDependency target l, ins')
  | None => Ok (target, ins')
  end.

Definition AddNamedSource (target : BuildTarget) (ins : Inputs) (cName cSource : string)
    : result (BuildTarget * Inputs) :=
  let! source := parseSource cSource (PackageName (Label target)) in
  let ins' := mkInputs (Sources ins) (NamedSources ins ++ [(cName, source)]) (Data ins) in
  match input_label source with
  | Some l => Ok (AddDependency target l, ins')
  | None => Ok (target, ins')
  end.

Definition AddData (target : BuildTarget) (ins : Inputs) (cData : string)
    : result (BuildTarget * Inputs) :=
  let! data := parseSource cData (PackageName (Label target)) in
  let ins' := mkInputs (Sources ins) (NamedSources ins) (Data ins ++ [data]) in
  match input_label data with
  | Some l => Ok (AddDependency target l, ins')
  | None => Ok (target, ins')
  end.

(** [GetSubincludeFile]: [DEFER] is the [cDeferParse] sentinel. *)
Definition GetSubincludeFile (w : World) (pkg cLabel : string)
    : result (SubincludeResult * World) :=
  let pkgName := PkgName (pkg_obj w pkg) in
  let! label := parsed (ParseBuildLabel cLabel pkgName) in
  let pkgLabel := mkLabel pkgName "all" in
  match graph_Target w label with
  | None =>
      if negb (graph_Package w (PackageName label)) then Ok (DEFER, deferParse w label pkg)
      else Panic Unsubincludable
  | Some target =>
      if negb (CanSee (NewBuildTarget pkgLabel) target) then Panic VisibilityViolation
      else match Outputs target with
           | [out] =>
               if state_ltb (State target) Built then Ok (DEFER, deferParse w label pkg)
               else Ok (SubincludePath (Join (OutDir target) out), w)
           | _ => Panic MultipleOutputs
           end
  end.

(** The recursive [getLabels] closure: labels with the prefix, stripped
    and trimmed, of a target and of its dependencies. *)
Fixpoint collect_labels (prefix : string) (t : BuildTarget) : list string :=
  match t with
  | mkTarget _ _ _ _ _ _ _ _ _ _ _ _ _ _ _ labels _ _ _ _ _ _ deps =>
      map (fun label => TrimSpace (TrimPrefix label prefix))
        (filter (fun label => HasPrefix label prefix) labels) ++
      (fix go (ds : list BuildTarget) : list string :=
         match ds with
         | [] => []
         | d :: ds' => collect_labels prefix d ++ go ds'
         end) deps
  end.

(** [GetLabels]: [log.Fatalf] is modelled as the error [NotBuilding]; the
    map of labels and [sort.Strings] give the distinct labels in byte
    order. *)
Definition GetLabels (w : World) (pkg name prefix : string) : result (list string) :=
  let! target := getTargetPost w pkg name in
  match State target with
  | Building => Ok (merge_sort String.le (remove_dups (collect_labels prefix target)))
  | _ => Panic NotBuilding
  end.
(** The dependency-adding callbacks, as a sequence of calls. *)
Inductive DepOp :=
  | OpAddDep (l : BuildLabel) (cDep : string)
  | OpAddExportedDep (l : BuildLabel) (cDep : string)
  | OpAddDependency (pkg name cDep : string) (exported : bool).

Definition run_dep_op (w : World) (op : DepOp) : result World :=
  match op with
  | OpAddDep l d => AddDep w l d
  | OpAddExportedDep l d => AddExportedDep w l d
  | OpAddDependency pkg name d e => AddDependencyPost w pkg name d e
  end.

(** A panic stops the sequence. *)
Fixpoint run_dep_ops (w : World) (ops : list DepOp) : result World :=
  match ops with
  | [] => Ok w
  | op :: ops' => let! w1 := run_dep_op w op in run_dep_ops w1 ops'
  end.
End Callbacks.

(** A target and, recursively, its dependencies. *)
Fixpoint transitive_targets (t : BuildTarget) : list BuildTarget :=
  match t with
  | mkTarget _ _ _ _ _ _ _ _ _ _ _ _ _ _ _ _ _ _ _ _ _ _ deps =>
      t :: (fix go (ds : list BuildTarget) : list BuildTarget :=
              match ds with
              | [] => []
              | d :: ds' => transitive_targets d ++ go ds'
              end) deps
  end.

(** Every exported dependency of every stored target is a dependency. *)
Definition exports_included (w : World) : Prop :=
  forall pkg name t, Targets (pkg_obj w pkg) !! name = Some t ->
  forall d, d ∈ ExportedDependencies t -> d ∈ DeclaredDependencies t.
End Interp.

(** ** [Glob] over a directory tree *)
Module GlobModel.
Import GoStrings GoPath Interp.

(** A directory tree; a directory lists its entries in name order, the
    order in which [filepath.Walk] reads them. *)
Inductive entry := EFile (name : string) | EDir (name : string) (children : list entry).

Definition entry_name (e : entry) : string :=
  match e with EFile n | EDir n _ => n end.

Fixpoint lookup_in (cs : list string) (es : list entry) : option entry :=
  match cs with
  | [] => None
  | c :: cs' =>
      match find (fun e => bool_decide (entry_name e = c)) es with
      | Some e =>
          match cs', e with
          | [], _ => Some e
          | _, EDir _ ch => lookup_in cs' ch
          | _, EFile _ => None
          end
      | None => None
      end
  end.

(** [strings.Replace(s, old, new, -1)] for a non-empty [old]. *)
Fixpoint replace_go (fuel : nat) (old new s : string) : string :=
  match fuel, s with
  | O, _ => s
  | _, EmptyString => EmptyString
  | S f, String c s' =>
      if HasPrefix s old
      then new +:+ replace_go f old new (String.substring (String.length old) (String.length s) s)
      else String c (replace_go f old new s')
  end.

Definition Replace (s old new : string) : string := replace_go (String.length s) old new s.

(** [filepath.Glob] only looks for the path itself when the pattern has no
    meta character ([*], [?], [\[]). *)
Definition hasMeta (p : string) : bool :=
  Contains p "*" || Contains p "?" || Contains p "[".

Section Glob.
(** The entries of the repository root; paths are relative to it. *)
Variable root : list entry.
Variable buildFileNames : list string.
(** [regexp.Compile], then [MatchString]. *)
Variable regexCompile : string -> option (string -> bool).
(** [filepath.Glob] on a pattern with meta characters, [None] for
    [ErrBadPattern]. *)
Variable globMeta : string -> option (list string).
(** [filepath.Match(pattern, name)], [None] for [ErrBadPattern]. *)
Variable Match : string -> string -> option bool.

Definition comps_of (s : string) : list string :=
  filter (fun c => negb (bool_decide (c = "")) && negb (bool_decide (c = ".")))
    (split_slash s).

(** [os.Lstat]: the entry at a path. *)
Definition Lstat (s : string) : option entry :=
  match s with
  | EmptyString => None
  | _ => match comps_of s with
         | [] => Some (EDir "." root)
         | cs => lookup_in cs root
         end
  end.

(** [core.FileExists]: a regular file is at the path. *)
Definition FileExistsIn (s : string) : bool :=
  match Lstat s with Some (EFile _) => true | _ => false end.

Definition isPackageIn (name : string) : bool :=
  isPackage FileExistsIn buildFileNames name.

Definition filepath_Glob (pattern : string) : option (list string) :=
  if negb (hasMeta pattern) then
    Some (match Lstat pattern with Some _ => [pattern] | None => [] end)
  else globMeta pattern.

(** The walk of [glob] below the root: a directory that is a package is
    skipped ([filepath.SkipDir]), a file is kept when the regex matches
    its path. *)
Fixpoint walk_entry (rx : string -> bool) (dir : string) (e : entry) : list string :=
  match e with
  | EFile n => let name := Join dir n in if rx name then [name] else []
  | EDir n ch =>
      let name := Join dir n in
      if isPackageIn name then []
      else (fix go (es : list entry) : list string :=
              match es with
              | [] => []
              | e' :: es' => walk_entry rx name e' ++ go es'
              end) ch
  end.

(** [filepath.Walk(rootPath, ...)] with the callback of [glob]; [None] is
    the error of a missing root. *)
Definition walk_root (rx : string -> bool) (rootPath : string) : option (list string) :=
  match Lstat rootPath with
  | None => None
  | Some (EFile _) => Some (if rx rootPath then [rootPath] else [])
  | Some (EDir _ ch) => Some (flat_map (walk_entry rx rootPath) ch)
  end.

(** [glob]. *)
Definition glob (rootPath pattern : string) : option (list string) :=
  if negb (Contains pattern "**") then filepath_Glob (Join rootPath pattern)
  else
    let p1 := Replace pattern "*" "[^/]*" in
    let p2 := Replace p1 "[^/]*[^/]*" ".*" in
    let p3 := Replace p2 "/.*/" "/(?:.*/)?" in
    match regexCompile p3 with
    | None => None
    | Some rx => walk_root rx rootPath
    end.

Fixpoint shouldExcludeMatch (m packageName : string) (excludes : list string)
    : result bool :=
  match excludes with
  | [] => Ok false
  | e :: es =>
      match Match (Join packageName e) m with
      | None => Panic GlobError
      | Some true => Ok true
      | Some false => shouldExcludeMatch m packageName es
      end
  end.

(** The body of the inner loop of [Glob] for one match. *)
Definition glob_keep (packageName : string) (excludes : list string)
    (includeHidden : bool) (filename : string) : result (list string) :=
  let file := snd (Split filename) in
  if negb includeHidden &&
     (HasPrefix file "." || (HasPrefix file "#" && HasSuffix file "#"))
  then Ok []
  else
    let! excluded := shouldExcludeMatch filename packageName excludes in
    if excluded then Ok []
    else if HasPrefix filename packageName then
      if String.length filename <? S (String.length packageName) then Panic IndexOutOfRange
      else Ok [String.substring (S (String.length packageName)) (String.length filename) filename]
    else Ok [filename].

Fixpoint glob_keep_all (packageName : string) (excludes : list string)
    (includeHidden : bool) (ms : list string) : result (list string) :=
  match ms with
  | [] => Ok []
  | m :: ms' =>
      let! a := glob_keep packageName excludes includeHidden m in
      let! b := glob_keep_all packageName excludes includeHidden ms' in
      Ok (a ++ b)
  end.

(** [Glob]. *)
Fixpoint Glob (packageName : string) (includes excludes : list string)
    (includeHidden : bool) : result (list string) :=
  match includes with
  | [] => Ok []
  | inc :: incs =>
      match glob packageName inc with
      | None => Panic GlobError
      | Some matches =>
          let! a := glob_keep_all packageName excludes includeHidden matches in
          let! b := Glob packageName incs excludes includeHidden in
          Ok (a ++ b)
      end
  end.
End Glob.
End GlobModel.

(** ** Sample inputs for the directory cache *)
Module CacheFixtures.
Import DirCache.

Definition ex_target (outs : list string) : BuildTarget :=
  set_Outputs (NewBuildTarget (mkLabel "p" "n")) outs.

Definition ex_outDir (_ : BuildTarget) : path := ["out"].

Definition ex_cache : dirCache := {| CacheDir := ["cache"] |}.

Definition ex_key (k : string) : string := k.

(** An out-dir [out] holding one file [out/z]. *)
Definition ex_fs : FS :=
  fun q => if bool_decide (q = ["out"]) then Some NDir
           else if bool_decide (q = ["out"; "z"]) then Some (NFile "data" 0)
           else None.
End CacheFixtures.

(** ** Sample inputs for the interpreter callbacks *)
Module ParseFixtures.
Import Interp GlobModel.

(** A target of package [p] with the given state, outputs, labels and
    resolved dependencies. *)
Definition ex_tgt (name : string) (st : BuildTargetState) (outs labels : list string)
    (deps : list BuildTarget) : BuildTarget :=
  mkTarget (mkLabel "p" name) "" "" false false false false false false false false
    0 0 0 "" labels outs [] [] [] [] st deps.

(** A world with one package [p] holding the given targets. *)
Definition ex_world (ts : list (string * BuildTarget)) (graphPkgs : list string)
    (graphTargets : list BuildLabel) : World :=
  mkWorld {[ "p" := mkPackage "p" (list_to_map ts) ∅ ]} (list_to_set graphPkgs)
    graphTargets [] [].

(** A label parser that names a target of the current package, with no
    file part. *)
Definition ex_pbfl (s pkg : string) : option (BuildLabel * string) :=
  Some (mkLabel pkg s, "").

Definition ex_pbl (s pkg : string) : option BuildLabel := Some (mkLabel pkg s).

Definition ex_see (_ _ : BuildTarget) : bool := true.

Definition ex_outdir (_ : BuildTarget) : string := "plz-out/gen/p".

(** Only [x/BUILD] exists: [x] is a package. *)
Definition ex_exists (f : string) : bool := bool_decide (f = "x/BUILD").

(** Package [p] with a sub-package [p/sub] holding [inner.go]. *)
Definition ex_tree : list entry :=
  [EDir "p" [EFile "BUILD"; EFile "a.go";
             EDir "sub" [EFile "BUILD"; EFile "inner.go"]]].

(** Stands for the compiled [.*/[^/]*.go] of [**/*.go]: on the paths of
    [ex_tree] it matches exactly those ending in [.go]. *)
Definition ex_regex (_ : string) : option (string -> bool) :=
  Some (fun s => HasSuffix s ".go").

Definition ex_globmeta (_ : string) : option (list string) := Some [].

Definition ex_match (_ _ : string) : option bool := Some false.
End ParseFixtures.

(** ** More of [dir_cache.go] *)
Module DirCacheMore.
Import DirCache.

(** [Clean]: removes the entries of the target under every key. *)
Definition Clean (cache : dirCache) (t : BuildTarget) (fs : FS) : FS :=
  RemoveAll (CacheDir cache ++ path_of (PackageName (Label t)) ++ [Name (Label t)]) fs.

(** The directory [newDirCache] settles on: [config.Cache.Dir] when it
    starts with a slash, otherwise joined to the repository root. The
    [config.Cache.Dir[0]] of an empty setting is Go's index-out-of-range
    panic. *)
Definition newDirCache_Dir (RepoRoot cfgDir : string) : result string :=
  match cfgDir with
  | EmptyString => Panic IndexOutOfRange
  | String c _ => if bool_decide (c = "/"%char) then Ok cfgDir else Ok (Join RepoRoot cfgDir)
  end.

(** Every path on which [g] and [g'] differ lies below one of the [under]
    paths, or is a directory of [g'] on one of the [anc] paths. *)
Definition confined (under anc : path -> Prop) (g g' : FS) : Prop :=
  forall q, g' q <> g q -> under q \/ (anc q /\ g' q = Some NDir).
End DirCacheMore.

(** ** More of [interpreter.go] *)
Module InterpMore.
Import GoStrings GoPath Interp.

Section More.
Variable FileExists : string -> bool.
Variable buildFileNames : list string.

(** [isPackage] with its memo table made explicit; [Interp.isPackage] is
    the loop of [isPackageInternal]. *)
Definition isPackage_memo (memo : gmap string bool) (name : string)
    : bool * gmap string bool :=
  match memo !! name with
  | Some ret => (ret, memo)
  | None =>
      let ret := isPackage FileExists buildFileNames name in
      (ret, <[name := ret]> memo)
  end.

(** Successive calls sharing the memo table. *)
Fixpoint isPackage_calls (memo : gmap string bool) (names : list string)
    : list bool * gmap string bool :=
  match names with
  | [] => ([], memo)
  | n :: ns =>
      let '(r, memo1) := isPackage_memo memo n in
      let '(rs, memo2) := isPackage_calls memo1 ns in
      (r :: rs, memo2)
  end.

(** The memo table agrees with [isPackageInternal]. *)
Definition memo_ok (memo : gmap string bool) : Prop :=
  forall n r, memo !! n = Some r -> r = isPackage FileExists buildFileNames n.
End More.

(** [strings.TrimLeft(s, "/")]. *)
Fixpoint trim_left_slash (s : string) : string :=
  match s with
  | String c s' => if bool_decide (c = "/"%char) then trim_left_slash s' else s
  | EmptyString => EmptyString
  end.

Section Include.
(** [Package.RegisterSubinclude], of the [core] package: its effect on
    the shared state is left abstract. *)
Variable RegisterSubinclude : World -> string -> string -> World.
Variable RepoRoot : string.

(** [GetIncludeFile]; [None] is the panic on a label that does not start
    with [//]. *)
Definition GetIncludeFile (w : World) (pkg label : string) : option (string * World) :=
  if negb (HasPrefix label "//") then None
  else
    let relPath := trim_left_slash label in
    Some (Join RepoRoot relPath, RegisterSubinclude w pkg relPath).
End Include.

(** [k] slashes. *)
Fixpoint slashes (k : nat) : string :=
  match k with
  | O => EmptyString
  | S k' => String "/" (slashes k')
  end.

(** The setting name [SetContainerSetting] passes on:
    [strings.Replace(name, "_", "", -1)]. *)
Definition container_setting_name (name : string) : string :=
  GlobModel.Replace name "_" "".
End InterpMore.

(** * Properties *)

(** ** Directory cache: filesystem lemmas *)
Module DirCacheFacts.
Import DirCache.

Lemma is_prefix_spec (p q : path) : is_prefix p q = true <-> exists r, q = p ++ r.
Proof.
  revert q; induction p as [|x p IH]; intros [|y q]; simpl.
  - split; [intros _; by exists []|done].
  - split; [intros _; by exists (y :: q)|done].
  - split; [done|]. intros [r Hr]; discriminate.
  - rewrite andb_true_iff, bool_decide_eq_true, IH. split.
    + intros [-> [r ->]]; by exists r.
    + intros [r Hr]; injection Hr as -> ->; eauto.
Qed.

Lemma is_prefix_false (p q : path) : is_prefix p q = false <-> ~ exists r, q = p ++ r.
Proof. rewrite <- is_prefix_spec. destruct (is_prefix p q); intuition congruence. Qed.

Lemma strip_prefix_spec (p q s : path) : strip_prefix p q = Some s <-> q = p ++ s.
Proof.
  revert q; induction p as [|x p IH]; intros [|y q]; simpl.
  - split; congruence.
  - split; congruence.
  - split; [done|discriminate].
  - case_bool_decide as Hxy.
    + subst. rewrite IH. split; [by intros ->|by intros [=]].
    + split; [done|]. by intros [= ? ?].
Qed.

Lemma strip_prefix_none (p q : path) : strip_prefix p q = None <-> ~ exists s, q = p ++ s.
Proof.
  split.
  - intros Hn [s Hs]. apply strip_prefix_spec in Hs. congruence.
  - intros Hn. destruct (strip_prefix p q) as [s|] eqn:E; [|done].
    exfalso; apply Hn. exists s. by apply strip_prefix_spec.
Qed.

Lemma prefixes_spec (p q : path) : q ∈ prefixes p <-> q <> [] /\ exists r, p = q ++ r.
Proof.
  revert q; induction p as [|x p IH]; intros q; simpl.
  - rewrite elem_of_nil. split; [done|]. intros [Hq [r Hr]].
    destruct q; [done|discriminate].
  - rewrite elem_of_cons, list_elem_of_fmap. split.
    + intros [->|[q' [-> Hq']]].
      * split; [done|]. by exists p.
      * apply IH in Hq' as [_ [r ->]]. split; [done|]. by exists r.
    + intros [Hq [r Hr]]. destruct q as [|y q]; [done|].
      injection Hr as -> Hp. destruct q as [|z q]; [by left|].
      right. exists (z :: q). split; [done|]. apply IH. split; [done|]. by exists r.
Qed.

Lemma MkdirAll_none (p : path) (fs : FS) :
  MkdirAll p fs = None <-> exists q, q <> [] /\ (exists r, p = q ++ r) /\ is_file (fs q) = true.
Proof.
  unfold MkdirAll. split.
  - destruct (existsb _ _) eqn:E; [|done]. intros _.
    apply existsb_exists in E as [q [Hq Hf]].
    apply list_elem_of_In, prefixes_spec in Hq as [Hq Hr]. eauto.
  - intros [q [Hq [Hr Hf]]]. destruct (existsb _ _) eqn:E; [done|].
    exfalso. assert (existsb (fun q => is_file (fs q)) (prefixes p) = true) as E'.
    { apply existsb_exists. exists q. split; [|done].
      apply list_elem_of_In, prefixes_spec. eauto. }
    congruence.
Qed.

Lemma MkdirAll_some (p : path) (fs fs' : FS) :
  MkdirAll p fs = Some fs' ->
  forall q, fs' q = fs q \/
            (fs q = None /\ fs' q = Some NDir /\ q <> [] /\ exists r, p = q ++ r).
Proof.
  unfold MkdirAll. destruct (existsb _ _); [done|]. intros [= <-] q. cbv beta.
  destruct (_ && is_prefix q p) eqn:E; [|by left].
  apply andb_true_iff in E as [Hq Hp]. apply bool_decide_eq_true in Hq.
  apply is_prefix_spec in Hp.
  destruct (fs q) as [n|] eqn:Fq; [by left|right; auto].
Qed.

Lemma MkdirAll_dir (p : path) (fs fs' : FS) :
  MkdirAll p fs = Some fs' ->
  forall q, q <> [] -> (exists r, p = q ++ r) -> fs' q = Some NDir.
Proof.
  unfold MkdirAll. destruct (existsb _ _) eqn:E; [done|]. intros [= <-] q Hq Hr. cbv beta.
  assert (is_prefix q p = true) as ->. { by apply is_prefix_spec. }
  destruct (bool_decide _) eqn:Eq; [|apply bool_decide_eq_false in Eq; done]. simpl.
  destruct (fs q) as [[|d m]|] eqn:Fq; [done| |done].
  exfalso. assert (existsb (fun q => is_file (fs q)) (prefixes p) = true) as E'.
  { apply existsb_exists. exists q. split; [|by rewrite Fq].
    apply list_elem_of_In, prefixes_spec. eauto. }
  congruence.
Qed.

Lemma Copy_none (from to : path) (m : Z) (l : bool) (fs : FS) :
  RecursiveCopyFile from to m l fs = None <-> fs from = None.
Proof.
  unfold RecursiveCopyFile, PathExists. destruct (fs from); split; done.
Qed.

Lemma Copy_some (from to : path) (m : Z) (l : bool) (fs fs' : FS) :
  RecursiveCopyFile from to m l fs = Some fs' ->
  (forall r, ~ (exists s, r = to ++ s) -> fs' r = fs r) /\
  (forall s, fs' (to ++ s) =
             match fs (from ++ s) with None => fs (to ++ s) | o => set_mode m o end).
Proof.
  unfold RecursiveCopyFile. destruct (PathExists from fs); [|done]. intros [= <-].
  split.
  - intros r Hr. apply strip_prefix_none in Hr. cbv beta. by rewrite Hr.
  - intros s. cbv beta. assert (strip_prefix to (to ++ s) = Some s) as -> by
      by apply strip_prefix_spec. done.
Qed.

End DirCacheFacts.

Module DirCacheStore.
Import DirCache DirCacheFacts.

Lemma set_mode_idem (m : Z) (o : option node) : set_mode m (set_mode m o) = set_mode m o.
Proof. by destruct o as [[|d m']|]. Qed.

Lemma set_mode_none (m : Z) (o : option node) : set_mode m o = None <-> o = None.
Proof. destruct o as [[|d m']|]; simpl; split; congruence. Qed.

Lemma set_mode_file (m : Z) (o : option node) : is_file (set_mode m o) = is_file o.
Proof. by destruct o as [[|d m']|]. Qed.

Lemma disjoint_nil_l (a b : path) : disjoint a b -> a <> [].
Proof. intros H ->. apply (H b []). by rewrite app_nil_r. Qed.

Lemma disjoint_nil_r (a b : path) : disjoint a b -> b <> [].
Proof. intros H ->. apply (H [] a). by rewrite app_nil_r. Qed.

(** A non-empty prefix of [Dir out] is a strict prefix of [out]. *)
Lemma Dir_prefix (out q : path) :
  (exists r, Dir out = q ++ r) -> out <> [] -> exists r, r <> [] /\ out = q ++ r.
Proof.
  intros [r Hr] Hout. unfold Dir in Hr.
  exists (r ++ [List.last out ""]). split; [by destruct r|].
  rewrite (app_removelast_last "" Hout) at 1. rewrite Hr. by rewrite <- app_assoc.
Qed.

Lemma strict_prefix_Dir (out q : path) :
  (exists r, r <> [] /\ out = q ++ r) -> exists r, Dir out = q ++ r.
Proof.
  intros [r [Hr ->]]. unfold Dir. rewrite removelast_app by done. eauto.
Qed.

Lemma dis_all (a b : path) : disjoint a b ->
  (forall x y, a ++ x = b ++ y -> False) /\ (forall x, a = b ++ x -> False) /\
  (forall x, b = a ++ x -> False).
Proof.
  intros H. split; [exact H|split].
  - intros x E. apply (H [] x). by rewrite app_nil_r.
  - intros x E. apply (H x []). by rewrite app_nil_r.
Qed.

Ltac dis_contra H :=
  rewrite <- ?app_assoc in H;
  match goal with
  | Hd : disjoint _ _ |- _ =>
      let D1 := fresh in let D2 := fresh in let D3 := fresh in
      destruct (dis_all _ _ Hd) as (D1 & D2 & D3);
      first [ exact (D1 _ _ H) | exact (D1 _ _ (eq_sym H))
            | exact (D2 _ H) | exact (D2 _ (eq_sym H))
            | exact (D3 _ H) | exact (D3 _ (eq_sym H)) ]
  end.

Ltac len_contra H :=
  apply (f_equal length) in H; rewrite ?length_app in H; simpl in H;
  rewrite ?length_app in H; lia.

Section Store.
Variable encodeKey : string -> string.
Variable outDir : BuildTarget -> path.
Variable cache : dirCache.
Variable t : BuildTarget.
Variable key : string.
Variable fs0 : FS.

Local Abbreviation cD := (getPath encodeKey cache t key).
Local Abbreviation oD := (outDir t).
Local Abbreviation m := (fileMode t).

Hypothesis Hwf : fs_wf fs0.
Hypothesis Hdis : disjoint oD cD.
Hypothesis Hcd : forall q, q <> [] -> (exists r, r <> [] /\ cD = q ++ r) ->
                 is_file (fs0 q) = false.

(** What [Store] maintains, after the artifacts [L] are stored. *)
Record store_inv (L : list path) (g : FS) : Prop := {
  si_art : forall out, out ∈ L -> out <> [] /\ fs0 (oD ++ out) <> None;
  si_out : forall x, g (oD ++ x) = fs0 (oD ++ x);
  si_copy : forall p, (exists out, out ∈ L /\ exists s, p = out ++ s) ->
            g (cD ++ p) = set_mode m (fs0 (oD ++ p));
  si_dirs : forall q, q <> [] -> (exists out, out ∈ L /\ exists r, r <> [] /\ out = q ++ r) ->
            g (cD ++ q) = Some NDir;
  si_only : forall p, p <> [] -> g (cD ++ p) <> None ->
            (exists out, out ∈ L /\ exists s, p = out ++ s) \/
            (exists out, out ∈ L /\ exists r, r <> [] /\ out = p ++ r);
  si_root : is_file (g cD) = false;
  si_root_dir : L <> [] -> g cD = Some NDir;
  si_else : forall q, ~ (exists s, q = cD ++ s) -> ~ (exists s, q = oD ++ s) ->
            g q = fs0 q \/ (fs0 q = None /\ g q = Some NDir)
}.

Lemma store_inv_init : store_inv [] (RemoveAll cD fs0).
Proof.
  constructor.
  - intros out Hin. by apply elem_of_nil in Hin.
  - intros x. unfold RemoveAll. destruct (is_prefix cD (oD ++ x)) eqn:E; [|done].
    apply is_prefix_spec in E as [r Hr]. by destruct (Hdis x r).
  - intros p [out [Hin _]]. by apply elem_of_nil in Hin.
  - intros q _ [out [Hin _]]. by apply elem_of_nil in Hin.
  - intros p _ Hp. exfalso. apply Hp. unfold RemoveAll.
    assert (is_prefix cD (cD ++ p) = true) as -> by (apply is_prefix_spec; eauto). done.
  - unfold RemoveAll. assert (is_prefix cD cD = true) as -> by
      (apply is_prefix_spec; exists []; by rewrite app_nil_r). done.
  - done.
  - intros q Hq _. left. unfold RemoveAll.
    destruct (is_prefix cD q) eqn:E; [|done]. apply is_prefix_spec in E. done.
Qed.

Lemma no_file_above L g out k :
  store_inv L g -> fs0 (oD ++ out) <> None ->
  k <> [] -> (exists r, r <> [] /\ out = k ++ r) -> is_file (g (cD ++ k)) = false.
Proof.
  intros Hi Hout Hk [r [Hr ->]].
  destruct (is_file (g (cD ++ k))) eqn:Ef; [|done]. exfalso.
  assert (g (cD ++ k) <> None) as Hne by (intros E; by rewrite E in Ef).
  destruct (si_only _ _ Hi k Hk Hne) as [Hc|Hc].
  - rewrite (si_copy _ _ Hi k Hc), set_mode_file in Ef.
    assert (fs0 (oD ++ k) = Some NDir) as Hd.
    { apply (Hwf _ r); [by intros [_ ?]%app_nil|done|]. by rewrite <- app_assoc. }
    by rewrite Hd in Ef.
  - by rewrite (si_dirs _ _ Hi k Hk Hc) in Ef.
Qed.

Lemma longer_not_strict (k out r s : path) : r <> [] -> out = k ++ r -> k <> out ++ s.
Proof.
  intros Hr -> E. apply (f_equal length) in E. rewrite !length_app in E.
  destruct r; [done|]. simpl in E. lia.
Qed.

(** The successful run of [StoreExtra] on a new artifact. *)
Lemma StoreExtra_shape L g out :
  store_inv L g -> out <> [] -> fs0 (oD ++ out) <> None ->
  let g' := StoreExtra encodeKey outDir cache t key out g in
  (forall s, g' (cD ++ out ++ s) = set_mode m (fs0 (oD ++ out ++ s))) /\
  (forall r, ~ (exists s, r = cD ++ out ++ s) ->
     g' r = g r \/ (g r = None /\ g' r = Some NDir /\ r <> [] /\
                    exists z, cD ++ Dir out = r ++ z)) /\
  (forall k, k <> [] -> (exists r, r <> [] /\ out = k ++ r) -> g' (cD ++ k) = Some NDir) /\
  g' cD = Some NDir.
Proof.
  intros Hi Hne Hout g'. subst g'.
  pose proof (disjoint_nil_r _ _ Hdis) as HcD.
  (* the directories of the artifact *)
  assert (exists g1,
    (if bool_decide (Dir out = []) then Some g else MkdirAll (cD ++ Dir out) g) = Some g1 /\
    (forall q, g1 q = g q \/ (g q = None /\ g1 q = Some NDir /\ q <> [] /\
                              exists z, cD ++ Dir out = q ++ z)) /\
    (forall k, k <> [] -> (exists r, Dir out = k ++ r) -> g1 (cD ++ k) = Some NDir))
    as [g1 [E1 [G1 D1]]].
  { case_bool_decide as HD.
    - exists g. split; [done|]. split; [by left|].
      intros k Hk [r Hr]. rewrite HD in Hr. symmetry in Hr. by apply app_nil in Hr as [-> _].
    - destruct (MkdirAll (cD ++ Dir out) g) as [g1|] eqn:E.
      + exists g1. split; [done|]. split; [by apply MkdirAll_some|].
        intros k Hk [r Hr]. apply (MkdirAll_dir _ _ _ E).
        * by intros [_ ?]%app_nil.
        * exists r. by rewrite Hr, app_assoc.
      + exfalso. apply MkdirAll_none in E as [q [Hq [[z Hz] Hf]]].
        apply app_eq_app in Hz as [k [[Hk1 Hk2]|[Hk1 Hk2]]].
        * (* q is an ancestor of the cache directory, or the directory itself *)
          destruct k as [|c k].
          { rewrite app_nil_r in Hk1. subst q. by rewrite (si_root _ _ Hi) in Hf. }
          destruct (si_else _ _ Hi q) as [Eq|[_ Eq]].
          -- intros [s ->]. rewrite <- app_assoc in Hk1. len_contra Hk1.
          -- intros [s ->]. apply (Hdis (s ++ c :: k) []). rewrite app_nil_r, Hk1.
             by rewrite <- app_assoc.
          -- rewrite Eq, (Hcd q Hq) in Hf; [done|]. by exists (c :: k).
          -- by rewrite Eq in Hf.
        * (* q lies below the cache directory *)
          subst q. destruct k as [|c k].
          { rewrite app_nil_r in Hf. by rewrite (si_root _ _ Hi) in Hf. }
          rewrite (no_file_above L g out (c :: k) Hi Hout) in Hf; [done|done|].
          apply Dir_prefix; [|done]. by exists z. }
  unfold StoreExtra. cbv zeta. rewrite E1.
  set (g2 := RemoveAll (cD ++ out) g1).
  (* the cache directory itself *)
  destruct (MkdirAll cD g2) as [g3|] eqn:E3.
  2:{ exfalso. apply MkdirAll_none in E3 as [q [Hq [[z Hz] Hf]]].
      unfold g2, RemoveAll in Hf.
      destruct (is_prefix (cD ++ out) q) eqn:Ep.
      { apply is_prefix_spec in Ep as [s ->]. rewrite <- app_assoc in Hz.
        apply (f_equal length) in Hz. rewrite !length_app in Hz.
        destruct out; [done|]. simpl in Hz. lia. }
      destruct (G1 q) as [Eq|[_ [Eq _]]]; rewrite Eq in Hf; [|done].
      destruct z as [|c z].
      - rewrite app_nil_r in Hz. subst q. by rewrite (si_root _ _ Hi) in Hf.
      - destruct (si_else _ _ Hi q) as [Eq'|[_ Eq']].
        + intros [s ->]. rewrite <- app_assoc in Hz. len_contra Hz.
        + intros [s ->]. apply (Hdis (s ++ c :: z) []). rewrite app_nil_r, Hz.
          by rewrite <- app_assoc.
        + rewrite Eq', (Hcd q Hq) in Hf; [done|]. by exists (c :: z).
        + by rewrite Eq' in Hf. }
  (* the copy *)
  destruct (RecursiveCopyFile (oD ++ out) (cD ++ out) m false g3) as [g4|] eqn:E4.
  2:{ exfalso. apply Copy_none in E4.
      destruct (MkdirAll_some _ _ _ E3 (oD ++ out)) as [Eq|[_ [_ [_ [z Hz]]]]].
      2:{ apply (Hdis (out ++ z) []). rewrite app_nil_r, Hz. by rewrite <- app_assoc. }
      rewrite Eq in E4. unfold g2, RemoveAll in E4.
      destruct (is_prefix (cD ++ out) (oD ++ out)) eqn:Ep.
      { apply is_prefix_spec in Ep as [s Hs]. apply (Hdis out (out ++ s)).
        by rewrite app_assoc. }
      destruct (G1 (oD ++ out)) as [Eq'|[_ [_ [_ [z Hz]]]]].
      - rewrite Eq', (si_out _ _ Hi) in E4. done.
      - apply (Hdis (out ++ z) (Dir out)). rewrite app_assoc. by symmetry. }
  destruct (Copy_some _ _ _ _ _ _ E4) as [C1 C2].
  assert (G3 : forall r, ~ (exists s, r = cD ++ out ++ s) ->
     g4 r = g r \/ (g r = None /\ g4 r = Some NDir /\ r <> [] /\
                    exists z, cD ++ Dir out = r ++ z)).
  { intros r Hr. rewrite C1 by (intros [s Hs]; apply Hr; exists s; by rewrite Hs, app_assoc).
    assert (g2 r = g1 r) as E2.
    { unfold g2, RemoveAll. destruct (is_prefix (cD ++ out) r) eqn:Ep; [|done].
      apply is_prefix_spec in Ep as [s ->]. exfalso. apply Hr. exists s.
      by rewrite app_assoc. }
    destruct (MkdirAll_some _ _ _ E3 r) as [Eq|[Hn [Eq [Hq [z Hz]]]]].
    - rewrite Eq, E2. apply G1.
    - rewrite Eq. rewrite E2 in Hn. destruct (G1 r) as [Eq'|[? [Eq' _]]].
      + rewrite <- Eq'. right. split; [done|]. split; [done|]. split; [done|].
        exists (z ++ Dir out). by rewrite Hz, app_assoc.
      + by rewrite Eq' in Hn. }
  split; [|split; [exact G3|split]].
  - intros s. rewrite (app_assoc cD out s), C2, <- !app_assoc.
    destruct (MkdirAll_some _ _ _ E3 (oD ++ out ++ s)) as [Eq|[_ [_ [_ [z Hz]]]]].
    2:{ exfalso. dis_contra Hz. }
    rewrite Eq. unfold g2 at 1, RemoveAll.
    destruct (is_prefix (cD ++ out) (oD ++ out ++ s)) eqn:Ep.
    { exfalso. apply is_prefix_spec in Ep as [s' Hs']. dis_contra Hs'. }
    destruct (G1 (oD ++ out ++ s)) as [Eq'|[_ [_ [_ [z Hz]]]]].
    2:{ exfalso. dis_contra Hz. }
    rewrite Eq', (si_out _ _ Hi).
    destruct (fs0 (oD ++ out ++ s)) as [n|] eqn:Fs; [by destruct n|].
    simpl. destruct (MkdirAll_some _ _ _ E3 (cD ++ out ++ s)) as [Eq2|[_ [_ [_ [z Hz]]]]].
    + rewrite Eq2. unfold g2, RemoveAll.
      assert (is_prefix (cD ++ out) (cD ++ out ++ s) = true) as ->.
      { apply is_prefix_spec. exists s. by rewrite app_assoc. }
      done.
    + exfalso. apply (f_equal length) in Hz. rewrite !length_app in Hz.
      destruct out; [done|]. simpl in Hz. lia.
  - intros k Hk Hkr. rewrite C1.
    2:{ intros [s Hs]. rewrite <- app_assoc in Hs. apply app_inv_head in Hs.
        destruct Hkr as [r [Hr Ho]]. by apply (longer_not_strict k out r s). }
    destruct (MkdirAll_some _ _ _ E3 (cD ++ k)) as [Eq|[_ [Eq _]]]; rewrite Eq; [|done].
    unfold g2, RemoveAll. destruct (is_prefix (cD ++ out) (cD ++ k)) eqn:Ep.
    { exfalso. apply is_prefix_spec in Ep as [s Hs]. rewrite <- app_assoc in Hs.
      apply app_inv_head in Hs. destruct Hkr as [r [Hr Ho]].
      by apply (longer_not_strict k out r s). }
    apply D1; [done|]. by apply strict_prefix_Dir.
  - rewrite C1.
    2:{ intros [s Hs]. apply (f_equal length) in Hs. rewrite !length_app in Hs.
        destruct out; [done|]. simpl in Hs. lia. }
    apply (MkdirAll_dir _ _ _ E3); [done|]. exists []. by rewrite app_nil_r.
Qed.

Lemma store_step L g out :
  store_inv L g -> out <> [] -> fs0 (oD ++ out) <> None ->
  store_inv (L ++ [out]) (StoreExtra encodeKey outDir cache t key out g).
Proof.
  intros Hi Hne Hout.
  destruct (StoreExtra_shape L g out Hi Hne Hout) as (S1 & S2 & S3 & S4).
  set (g' := StoreExtra encodeKey outDir cache t key out g) in *.
  assert (Hin : forall ob, ob ∈ L ++ [out] <-> ob ∈ L \/ ob = out).
  { intros ob. by rewrite elem_of_app, list_elem_of_singleton. }
  assert (Hnot : forall p, is_prefix out p = false -> ~ (exists s, cD ++ p = cD ++ out ++ s)).
  { intros p Ep [s Hs]. apply app_inv_head in Hs. apply is_prefix_false in Ep.
    apply Ep. eauto. }
  constructor.
  - intros ob [Ho| ->]%Hin; [by apply (si_art _ _ Hi)|done].
  - intros x. destruct (S2 (oD ++ x)) as [Eq|[_ [_ [_ [z Hz]]]]].
    + intros [s Hs]. dis_contra Hs.
    + rewrite Eq. apply (si_out _ _ Hi).
    + exfalso. dis_contra Hz.
  - intros p [ob [[Ho| ->]%Hin [s ->]]].
    2:{ apply S1. }
    destruct (is_prefix out (ob ++ s)) eqn:Ep.
    { apply is_prefix_spec in Ep as [s' Hs']. rewrite Hs'. apply S1. }
    destruct (S2 (cD ++ ob ++ s)) as [Eq|[Hn [_ [_ [z Hz]]]]]; [by apply Hnot| |].
    + rewrite Eq. apply (si_copy _ _ Hi). eauto.
    + exfalso. rewrite <- app_assoc in Hz. apply app_inv_head in Hz.
      destruct (Dir_prefix out (ob ++ s)) as [r [Hr Hor]]; [eauto|done|].
      rewrite (si_copy _ _ Hi) in Hn; [|eauto]. apply set_mode_none in Hn.
      assert (fs0 (oD ++ ob ++ s) = Some NDir) as Hd; [|by rewrite Hd in Hn].
      apply (Hwf _ r); [|done|].
      * intros [_ Ho']%app_nil. apply app_nil in Ho' as [-> _].
        by destruct (si_art _ _ Hi [] Ho).
      * by rewrite <- app_assoc, <- Hor.
  - intros q Hq [ob [[Ho| ->]%Hin [r [Hr Hor]]]].
    2:{ apply S3; eauto. }
    destruct (is_prefix out q) eqn:Ep.
    + apply is_prefix_spec in Ep as [s ->]. rewrite S1.
      assert (fs0 (oD ++ out ++ s) = Some NDir) as ->; [|done].
      apply (Hwf _ r); [by intros [_ ?]%app_nil|done|].
      rewrite <- app_assoc, <- Hor. by apply (si_art _ _ Hi).
    + destruct (S2 (cD ++ q)) as [Eq|[_ [Eq _]]]; [by apply Hnot| |done].
      rewrite Eq. apply (si_dirs _ _ Hi); eauto.
  - intros p Hp Hne'. destruct (is_prefix out p) eqn:Ep.
    + apply is_prefix_spec in Ep. left. exists out. rewrite Hin. eauto.
    + destruct (S2 (cD ++ p)) as [Eq|[_ [_ [_ [z Hz]]]]]; [by apply Hnot| |].
      * rewrite Eq in Hne'.
        destruct (si_only _ _ Hi p Hp Hne') as [[ob [Ho H]]|[ob [Ho H]]];
          [left|right]; exists ob; rewrite Hin; eauto.
      * right. exists out. rewrite Hin. split; [by right|].
        rewrite <- app_assoc in Hz. apply app_inv_head in Hz.
        apply Dir_prefix; eauto.
  - by rewrite S4.
  - intros _. done.
  - intros q Hc Ho. destruct (S2 q) as [Eq|[Hn [Eq _]]].
    + intros [s ->]. apply Hc. exists (out ++ s). done.
    + rewrite Eq. by apply (si_else _ _ Hi).
    + rewrite Eq. destruct (si_else _ _ Hi q Hc Ho) as [E|[_ E]].
      * right. by rewrite <- E.
      * by rewrite E in Hn.
Qed.

Lemma store_fold outs L g :
  store_inv L g ->
  (forall out, out ∈ outs -> out <> [] /\ fs0 (oD ++ out) <> None) ->
  store_inv (L ++ outs)
    (fold_left (fun fs out => StoreExtra encodeKey outDir cache t key out fs) outs g).
Proof.
  revert L g. induction outs as [|o outs IH]; intros L g Hi Ho; simpl.
  - by rewrite app_nil_r.
  - assert (o <> [] /\ fs0 (oD ++ o) <> None) as [Hne Hout] by (apply Ho; left).
    replace (L ++ o :: outs) with ((L ++ [o]) ++ outs) by by rewrite <- app_assoc.
    apply IH; [by apply store_step|]. intros out Hin. apply Ho. by right.
Qed.

Lemma Store_inv :
  (forall out, out ∈ cacheArtifacts t -> out <> [] /\ fs0 (oD ++ out) <> None) ->
  store_inv (cacheArtifacts t) (Store encodeKey outDir cache t key fs0).
Proof.
  intros Ho. unfold Store. cbv zeta.
  apply (store_fold _ []); [apply store_inv_init|done].
Qed.
End Store.
End DirCacheStore.

Module DirCacheRetrieve.
Import DirCache DirCacheFacts DirCacheStore.

Lemma removelast_prefix (l : path) : exists w, l = removelast l ++ w.
Proof.
  destruct l as [|x l] using rev_ind; [by exists []|].
  exists [x]. by rewrite removelast_last.
Qed.

Section Retrieve.
Variable encodeKey : string -> string.
Variable outDir : BuildTarget -> path.
Variable cache : dirCache.
Variable t : BuildTarget.
Variable key : string.

Local Abbreviation cD := (getPath encodeKey cache t key).
Local Abbreviation oD := (outDir t).
Local Abbreviation m := (fileMode t).

Hypothesis Hdis : disjoint oD cD.

(** [RetrieveExtra] leaves the cache directory alone. *)
Lemma RetrieveExtra_cache out g b g' :
  RetrieveExtra encodeKey outDir cache t key out g = (b, g') ->
  forall p, g' (cD ++ p) = g (cD ++ p).
Proof.
  unfold RetrieveExtra. cbv zeta. intros E p.
  destruct (negb _); [by injection E as _ <-|].
  assert (Hd : forall g1, (if bool_decide (Dir (oD ++ out) = []) then Some g
                           else MkdirAll (Dir (oD ++ out)) g) = Some g1 ->
                          g1 (cD ++ p) = g (cD ++ p)).
  { intros g1. case_bool_decide; [by intros [= <-]|]. intros E1.
    destruct (MkdirAll_some _ _ _ E1 (cD ++ p)) as [Eq|[_ [_ [_ [z Hz]]]]]; [done|].
    exfalso. destruct (removelast_prefix (oD ++ out)) as [w Hw].
    unfold Dir in Hz. rewrite Hz in Hw. dis_contra Hw. }
  destruct (if bool_decide _ then _ else _) as [g1|] eqn:E1; [|by injection E as _ <-].
  assert (Hr : RemoveAll (oD ++ out) g1 (cD ++ p) = g (cD ++ p)).
  { unfold RemoveAll. destruct (is_prefix (oD ++ out) (cD ++ p)) eqn:Ep.
    - exfalso. apply is_prefix_spec in Ep as [s Hs]. dis_contra Hs.
    - by apply Hd. }
  destruct (RecursiveCopyFile _ _ _ _ _) as [g3|] eqn:E3; injection E as _ <-; [|done].
  destruct (Copy_some _ _ _ _ _ _ E3) as [C1 _]. rewrite C1; [done|].
  intros [s Hs]. dis_contra Hs.
Qed.

Lemma retrieve_all_miss outs g :
  (exists out, out ∈ outs /\ g (cD ++ out) = None) ->
  fst (retrieve_all encodeKey outDir cache t key outs g) = false.
Proof.
  revert g. induction outs as [|a outs IH]; intros g [out [Hin Hn]].
  - by apply elem_of_nil in Hin.
  - simpl. destruct (RetrieveExtra encodeKey outDir cache t key a g) as [b g1] eqn:E.
    destruct b; [|done]. apply elem_of_cons in Hin as [->|Hin].
    + exfalso. unfold RetrieveExtra, PathExists in E. cbv zeta in E.
      by rewrite Hn in E.
    + apply IH. exists out. split; [done|]. by rewrite (RetrieveExtra_cache _ _ _ _ E).
Qed.

Variable h : FS.
Hypothesis Hcw : forall q r, q <> [] -> r <> [] -> h (cD ++ q ++ r) <> None ->
                 h (cD ++ q) = Some NDir.

(** What the retrieval loop maintains, after the artifacts [L]. *)
Record retr_inv (L : list path) (g : FS) : Prop := {
  ri_art : forall out, out ∈ L -> out <> [];
  ri_cache : forall p, g (cD ++ p) = h (cD ++ p);
  ri_copy : forall p, (exists out, out ∈ L /\ exists s, p = out ++ s) ->
            g (oD ++ p) = set_mode m (h (cD ++ p));
  ri_files : forall p, is_file (g (oD ++ p)) = true ->
             exists out, out ∈ L /\ exists s, p = out ++ s;
  ri_anc : forall q, q <> [] -> (exists r, r <> [] /\ oD = q ++ r) -> is_file (g q) = false
}.

Lemma RetrieveExtra_shape L g out :
  retr_inv L g -> out <> [] -> h (cD ++ out) <> None ->
  exists g', RetrieveExtra encodeKey outDir cache t key out g = (true, g') /\
  (forall s, g' (oD ++ out ++ s) = set_mode m (g (cD ++ out ++ s))) /\
  (forall r, ~ (exists s, r = oD ++ out ++ s) ->
     g' r = g r \/ (g r = None /\ g' r = Some NDir /\ r <> [] /\
                   exists z, oD ++ Dir out = r ++ z)).
Proof.
  intros Hi Hne Hh. pose proof (disjoint_nil_l _ _ Hdis) as HoD.
  unfold RetrieveExtra. cbv zeta.
  assert (PathExists (cD ++ out) g = true) as ->.
  { unfold PathExists. rewrite (ri_cache _ _ Hi). by destruct (h (cD ++ out)). }
  simpl. assert (HD : Dir (oD ++ out) = oD ++ Dir out).
  { unfold Dir. by rewrite removelast_app. }
  rewrite HD. case_bool_decide as HDn.
  { exfalso. by apply app_nil in HDn as [? _]. }
  destruct (MkdirAll (oD ++ Dir out) g) as [g1|] eqn:E1.
  2:{ exfalso. apply MkdirAll_none in E1 as [q [Hq [[z Hz] Hf]]].
      assert (Hroot : is_file (g oD) = false).
      { destruct (is_file (g oD)) eqn:Ef; [|done].
        rewrite <- (app_nil_r oD) in Ef.
        destruct (ri_files _ _ Hi [] Ef) as [o [Ho [s Hs]]].
        symmetry in Hs. apply app_nil in Hs as [-> _]. by apply (ri_art _ _ Hi) in Ho. }
      apply app_eq_app in Hz as [k [[Hk1 Hk2]|[Hk1 Hk2]]].
      - destruct k as [|c k].
        + rewrite app_nil_r in Hk1. subst q. by rewrite Hroot in Hf.
        + rewrite (ri_anc _ _ Hi q Hq) in Hf; [done|]. by exists (c :: k).
      - subst q. destruct k as [|c k].
        + rewrite app_nil_r in Hf. by rewrite Hroot in Hf.
        + destruct (ri_files _ _ Hi _ Hf) as [o [Ho Hs]].
          rewrite (ri_copy _ _ Hi) in Hf; [|eauto]. rewrite set_mode_file in Hf.
          destruct (Dir_prefix out (c :: k)) as [r [Hr Hor]]; [eauto|done|].
          rewrite (Hcw (c :: k) r) in Hf; [done|done|done|]. by rewrite <- Hor. }
  set (g2 := RemoveAll (oD ++ out) g1).
  assert (Hg2 : forall p, g2 (cD ++ p) = g (cD ++ p)).
  { intros p. unfold g2, RemoveAll. destruct (is_prefix (oD ++ out) (cD ++ p)) eqn:Ep.
    - exfalso. apply is_prefix_spec in Ep as [s Hs]. dis_contra Hs.
    - destruct (MkdirAll_some _ _ _ E1 (cD ++ p)) as [Eq|[_ [_ [_ [z Hz]]]]]; [done|].
      exfalso. dis_contra Hz. }
  destruct (RecursiveCopyFile (cD ++ out) (oD ++ out) m true g2) as [g3|] eqn:E3.
  2:{ exfalso. apply Copy_none in E3. rewrite Hg2, (ri_cache _ _ Hi) in E3. done. }
  exists g3. split; [done|]. destruct (Copy_some _ _ _ _ _ _ E3) as [C1 C2]. split.
  - intros s. rewrite (app_assoc oD out s), C2, <- !app_assoc, Hg2.
    destruct (g (cD ++ out ++ s)) as [n|]; [by destruct n|].
    simpl. unfold g2, RemoveAll.
    assert (is_prefix (oD ++ out) (oD ++ out ++ s) = true) as ->; [|done].
    apply is_prefix_spec. exists s. by rewrite app_assoc.
  - intros r Hr. rewrite C1 by (intros [s Hs]; apply Hr; exists s; by rewrite Hs, app_assoc).
    unfold g2, RemoveAll. destruct (is_prefix (oD ++ out) r) eqn:Ep.
    { exfalso. apply is_prefix_spec in Ep as [s Hs]. apply Hr. exists s.
      by rewrite Hs, app_assoc. }
    by apply MkdirAll_some.
Qed.

Lemma retr_step L g out :
  retr_inv L g -> out <> [] -> h (cD ++ out) <> None ->
  exists g', RetrieveExtra encodeKey outDir cache t key out g = (true, g') /\
             retr_inv (L ++ [out]) g'.
Proof.
  intros Hi Hne Hh.
  destruct (RetrieveExtra_shape L g out Hi Hne Hh) as [g' [E [S1 S2]]].
  exists g'. split; [done|].
  assert (Hc : forall p, g' (cD ++ p) = g (cD ++ p)).
  { intros p. by rewrite (RetrieveExtra_cache _ _ _ _ E). }
  constructor.
  - intros o Ho. apply elem_of_app in Ho as [Ho|Ho%list_elem_of_singleton].
    + by apply (ri_art _ _ Hi).
    + by subst.
  - intros p. rewrite Hc. apply (ri_cache _ _ Hi).
  - intros p [o [Ho [s ->]]]. destruct (is_prefix out (o ++ s)) eqn:Ep.
    + apply is_prefix_spec in Ep as [s' ->]. rewrite S1, (ri_cache _ _ Hi). done.
    + apply elem_of_app in Ho as [Ho|Ho%list_elem_of_singleton];
        [|subst; exfalso; apply is_prefix_false in Ep; eauto].
      assert (Hn : ~ exists s', oD ++ o ++ s = oD ++ out ++ s').
      { intros [s' Hs']. apply app_inv_head in Hs'. apply is_prefix_false in Ep; eauto. }
      destruct (S2 _ Hn) as [->|[Hg [_ [_ [z Hz]]]]].
      * apply (ri_copy _ _ Hi). eauto.
      * exfalso. rewrite (ri_copy _ _ Hi) in Hg by eauto.
        apply set_mode_none in Hg.
        rewrite <- app_assoc in Hz. apply app_inv_head in Hz.
        destruct (Dir_prefix out (o ++ s)) as [r [Hr Hor]]; [eauto|done|].
        assert (o ++ s <> []) as Hos.
        { intros [Ho' _]%app_nil. by apply (ri_art _ _ Hi) in Ho. }
        pose proof (Hcw (o ++ s) r Hos Hr) as Hw. rewrite <- Hor in Hw.
        rewrite Hw in Hg by done. done.
  - intros p Hf. destruct (is_prefix out p) eqn:Ep.
    + apply is_prefix_spec in Ep as [s ->]. exists out.
      split; [apply elem_of_app; right; by left|eauto].
    + assert (Hn : ~ exists s', oD ++ p = oD ++ out ++ s').
      { intros [s' Hs']. apply app_inv_head in Hs'. apply is_prefix_false in Ep; eauto. }
      destruct (S2 _ Hn) as [Eq|[_ [Eq _]]]; rewrite Eq in Hf; [|done].
      destruct (ri_files _ _ Hi p Hf) as [o [Ho Hs]].
      exists o. split; [apply elem_of_app; by left|done].
  - intros q Hq [r [Hr Hqr]].
    assert (Hn : ~ exists s', q = oD ++ out ++ s').
    { intros [s' Hs']. subst. destruct r; [done|]. len_contra Hqr. }
    destruct (S2 _ Hn) as [->|[_ [-> _]]]; [|done].
    apply (ri_anc _ _ Hi); eauto.
Qed.

Lemma retrieve_all_ok outs L g :
  retr_inv L g -> (forall out, out ∈ outs -> out <> [] /\ h (cD ++ out) <> None) ->
  exists g', retrieve_all encodeKey outDir cache t key outs g = (true, g') /\
             retr_inv (L ++ outs) g'.
Proof.
  revert L g. induction outs as [|o outs IH]; intros L g Hi Ho; simpl.
  - exists g. by rewrite app_nil_r.
  - assert (o <> [] /\ h (cD ++ o) <> None) as [Hne Hh] by (apply Ho; left).
    destruct (retr_step L g o Hi Hne Hh) as [g1 [-> Hi1]].
    replace (L ++ o :: outs) with ((L ++ [o]) ++ outs) by by rewrite <- app_assoc.
    apply IH; [done|]. intros out Hin. apply Ho. by right.
Qed.
End Retrieve.
End DirCacheRetrieve.

Module DirCacheRoundTrip.
Import DirCache DirCacheFacts DirCacheStore DirCacheRetrieve.

Section RoundTrip.
Variable encodeKey : string -> string.
Variable outDir : BuildTarget -> path.
Variable cache : dirCache.
Variable t : BuildTarget.
Variable key : string.

Local Abbreviation cD := (getPath encodeKey cache t key).
Local Abbreviation oD := (outDir t).
Local Abbreviation m := (fileMode t).

Hypothesis Hdis : disjoint oD cD.

Lemma retr_inv_init h :
  (forall q, q <> [] -> (exists r, oD = q ++ r) \/ (exists r, q = oD ++ r) ->
             is_file (h q) = false) ->
  retr_inv encodeKey outDir cache t key h [] h.
Proof.
  intros Hno. pose proof (disjoint_nil_l _ _ Hdis) as HoD. constructor.
  - intros out Hin. by apply elem_of_nil in Hin.
  - done.
  - intros p [out [Hin _]]. by apply elem_of_nil in Hin.
  - intros p Hf. rewrite Hno in Hf; [done| |eauto].
    by intros [? _]%app_nil.
  - intros q Hq [r [_ Hr]]. apply Hno; eauto.
Qed.

Lemma fs_wf_cache h : fs_wf h ->
  forall q r, q <> [] -> r <> [] -> h (cD ++ q ++ r) <> None -> h (cD ++ q) = Some NDir.
Proof.
  intros Hwf q r Hq Hr Hn. apply (Hwf _ r); [by intros [_ ?]%app_nil|done|].
  by rewrite <- app_assoc.
Qed.

Section Stored.
Variable fs0 : FS.
Hypothesis Hwf : fs_wf fs0.
Variable L : list path.
Variable fs1 : FS.
Hypothesis Hsi : store_inv encodeKey outDir cache t key fs0 L fs1.

Lemma stored_under_dir q r :
  (exists out, out ∈ L /\ exists s, q = out ++ s) -> q <> [] -> r <> [] ->
  fs1 (cD ++ q ++ r) <> None -> fs1 (cD ++ q) = Some NDir.
Proof.
  intros Hq Hqn Hr Hn.
  assert (Hqr : exists out, out ∈ L /\ exists s, q ++ r = out ++ s).
  { destruct Hq as [o [Ho [s ->]]]. exists o. split; [done|].
    exists (s ++ r). by rewrite app_assoc. }
  rewrite (si_copy _ _ _ _ _ _ _ _ Hsi _ Hqr), set_mode_none in Hn.
  rewrite (si_copy _ _ _ _ _ _ _ _ Hsi _ Hq).
  rewrite (Hwf (oD ++ q) r); [done|by intros [_ ?]%app_nil|done|].
  by rewrite <- app_assoc.
Qed.

Lemma stored_wf q r : q <> [] -> r <> [] ->
  fs1 (cD ++ q ++ r) <> None -> fs1 (cD ++ q) = Some NDir.
Proof.
  intros Hq Hr Hn.
  destruct (si_only _ _ _ _ _ _ _ _ Hsi (q ++ r)) as [[o [Ho [s Hs]]]|[o [Ho [r' [Hr' Ho']]]]];
    [by intros [_ ?]%app_nil|done| |].
  - apply app_eq_app in Hs as [k [[Hk1 Hk2]|[Hk1 Hk2]]].
    + apply stored_under_dir with r; [|done|done|done]. eauto.
    + destruct k as [|c k].
      * rewrite app_nil_r in Hk1. subst o.
        apply stored_under_dir with r; [|done|done|done].
        eexists. split; [eassumption|]. exists []. by rewrite app_nil_r.
      * apply (si_dirs _ _ _ _ _ _ _ _ Hsi q Hq). exists o. split; [done|].
        by exists (c :: k).
  - apply (si_dirs _ _ _ _ _ _ _ _ Hsi q Hq). exists o. split; [done|].
    exists (r ++ r'). split; [by intros [? _]%app_nil|]. by rewrite Ho', <- app_assoc.
Qed.
End Stored.
End RoundTrip.
End DirCacheRoundTrip.

Section CacheClaims.
Import DirCache DirCacheFacts DirCacheStore DirCacheRetrieve DirCacheRoundTrip.


End CacheClaims.

Section CacheExamples.
Import DirCache DirCacheFacts CacheFixtures.



End CacheExamples.

Module DirCacheModes.
Import DirCache DirCacheFacts.

Lemma cwm_refl m g : created_with_mode m g g.
Proof. by intros r d mo _ []. Qed.

Lemma cwm_trans m g1 g2 g3 :
created_with_mode m g1 g2 -> created_with_mode m g2 g3 -> created_with_mode m g1 g3.
Proof.
intros H12 H23 r d mo E3 N. destruct (decide (g3 r = g2 r)) as [Eq|Ne].
- rewrite Eq in E3, N. by apply (H12 r d).
- by apply (H23 r d).
Qed.

Lemma cwm_RemoveAll m p g : created_with_mode m g (RemoveAll p g).
Proof. intros r d mo. unfold RemoveAll. by destruct (is_prefix p r). Qed.

Lemma cwm_MkdirAll m p g g' : MkdirAll p g = Some g' -> created_with_mode m g g'.
Proof.
intros E r d mo Er N. destruct (MkdirAll_some _ _ _ E r) as [Eq|[_ [Eq _]]]; congruence.
Qed.

Lemma cwm_Copy m from to l g g' :
RecursiveCopyFile from to m l g = Some g' -> created_with_mode m g g'.
Proof.
intros E r d mo Er N. destruct (Copy_some _ _ _ _ _ _ E) as [C1 C2].
destruct (strip_prefix to r) as [s|] eqn:Es.
- apply strip_prefix_spec in Es as ->. rewrite C2 in Er, N.
  destruct (g (from ++ s)) as [[|d' mo']|]; simpl in Er; congruence.
- apply strip_prefix_none in Es. rewrite C1 in N by done. done.
Qed.

Section Modes.
Variable encodeKey : string -> string.
Variable outDir : BuildTarget -> path.
Variable cache : dirCache.
Variable t : BuildTarget.
Variable key : string.

Lemma cwm_StoreExtra out g :
  created_with_mode (fileMode t) g (StoreExtra encodeKey outDir cache t key out g).
Proof.
  unfold StoreExtra. cbv zeta.
  destruct (if bool_decide _ then _ else _) as [g1|] eqn:E1; [|apply cwm_refl].
  assert (H1 : created_with_mode (fileMode t) g g1).
  { case_bool_decide; [injection E1 as <-; apply cwm_refl|by apply (cwm_MkdirAll (fileMode t)) in E1]. }
  apply (cwm_trans _ _ g1); [done|]. clear E1 H1.
  destruct (MkdirAll _ _) as [g3|] eqn:E3; [|apply cwm_RemoveAll].
  apply (cwm_trans _ _ (RemoveAll (getPath encodeKey cache t key ++ out) g1));
    [apply cwm_RemoveAll|].
  apply (cwm_trans _ _ g3); [by apply (cwm_MkdirAll (fileMode t)) in E3|].
  destruct (RecursiveCopyFile _ _ _ _ _) as [g4|] eqn:E4; [|apply cwm_refl].
  by apply cwm_Copy in E4.
Qed.

Lemma cwm_Store g :
  created_with_mode (fileMode t) g (Store encodeKey outDir cache t key g).
Proof.
  unfold Store. cbv zeta.
  apply (cwm_trans _ _ (RemoveAll (getPath encodeKey cache t key) g)); [apply cwm_RemoveAll|].
  generalize (RemoveAll (getPath encodeKey cache t key) g). clear g.
  induction (cacheArtifacts t) as [|o outs IH]; intros g; simpl; [apply cwm_refl|].
  eapply cwm_trans; [apply cwm_StoreExtra|apply IH].
Qed.

Lemma cwm_RetrieveExtra out g :
  created_with_mode (fileMode t) g (snd (RetrieveExtra encodeKey outDir cache t key out g)).
Proof.
  unfold RetrieveExtra. cbv zeta.
  destruct (negb _); [apply cwm_refl|].
  destruct (if bool_decide _ then _ else _) as [g1|] eqn:E1; [|apply cwm_refl].
  assert (H1 : created_with_mode (fileMode t) g g1).
  { case_bool_decide; [injection E1 as <-; apply cwm_refl|by apply (cwm_MkdirAll (fileMode t)) in E1]. }
  apply (cwm_trans _ _ (RemoveAll (outDir t ++ out) g1));
    [eapply cwm_trans; [exact H1|apply cwm_RemoveAll]|].
  destruct (RecursiveCopyFile _ _ _ _ _) as [g3|] eqn:E3; [|apply cwm_refl].
  by apply cwm_Copy in E3.
Qed.

Lemma cwm_Retrieve g :
  created_with_mode (fileMode t) g (snd (Retrieve encodeKey outDir cache t key g)).
Proof.
  unfold Retrieve. cbv zeta. destruct (negb _); [apply cwm_refl|].
  generalize g. induction (cacheArtifacts t) as [|o outs IH]; intros g'; simpl;
    [apply cwm_refl|].
  pose proof (cwm_RetrieveExtra o g') as H.
  destruct (RetrieveExtra encodeKey outDir cache t key o g') as [[] g1]; simpl in *;
    [|done]. eapply cwm_trans; [exact H|apply IH].
Qed.
End Modes.
End DirCacheModes.

Section ModeClaims.
Import DirCache DirCacheModes.

(** C8. Every file that [Store] or [StoreExtra] writes into the cache
  and every file that [Retrieve] or [RetrieveExtra] writes into the
  out-dir (any entry that differs from what was there before the call),
  for any artifact path given to [StoreExtra] and [RetrieveExtra], has
  the target's [fileMode], which is 0555 for a binary target and 0444
  otherwise. *)
Theorem cache_file_modes (encodeKey : string -> string) (outDir : BuildTarget -> path)
  (cache : dirCache) (t : BuildTarget) (key : string) (fs : FS) :
fileMode t = (if IsBinary t then 365 else 292)%Z /\
(forall r d mo,
   Store encodeKey outDir cache t key fs r = Some (NFile d mo) ->
   Store encodeKey outDir cache t key fs r <> fs r -> mo = fileMode t) /\
(forall out r d mo,
   StoreExtra encodeKey outDir cache t key out fs r = Some (NFile d mo) ->
   StoreExtra encodeKey outDir cache t key out fs r <> fs r -> mo = fileMode t) /\
(forall r d mo,
   snd (Retrieve encodeKey outDir cache t key fs) r = Some (NFile d mo) ->
   snd (Retrieve encodeKey outDir cache t key fs) r <> fs r -> mo = fileMode t) /\
(forall out r d mo,
   snd (RetrieveExtra encodeKey outDir cache t key out fs) r = Some (NFile d mo) ->
   snd (RetrieveExtra encodeKey outDir cache t key out fs) r <> fs r -> mo = fileMode t).
Proof.
split; [done|]. split; [|split; [|split]].
- apply cwm_Store.
- intros out. apply cwm_StoreExtra.
- apply cwm_Retrieve.
- intros out. apply cwm_RetrieveExtra.
Qed.

End ModeClaims.

(** ** Interpreter: the shared store *)
Module InterpFacts.
Import Interp.

Lemma pkg_obj_set_pkg (w : World) (pkg pkg' : string) (p : Package) :
pkg_obj (set_pkg w pkg p) pkg' = if bool_decide (pkg = pkg') then p else pkg_obj w pkg'.
Proof.
unfold pkg_obj, set_pkg; simpl. rewrite lookup_insert.
case_bool_decide; rewrite ?decide_True, ?decide_False by done; done.
Qed.

Lemma targets_set_target (w : World) (pkg name pkg' name' : string) (t : BuildTarget) :
Targets (pkg_obj (set_target w pkg name t) pkg') !! name' =
if bool_decide (pkg = pkg' /\ name = name') then Some t
else Targets (pkg_obj w pkg') !! name'.
Proof.
unfold set_target. rewrite pkg_obj_set_pkg.
destruct (bool_decide_reflect (pkg = pkg')) as [<-|Hp]; simpl.
- rewrite lookup_insert.
  destruct (decide (name = name')) as [<-|Hn].
  + rewrite bool_decide_true; done.
  + rewrite bool_decide_false; [done|]. intros [_ ?]; done.
- rewrite bool_decide_false; [done|]. intros [? _]; done.
Qed.

Lemma targets_set_target_same (w : World) (pkg name : string) (t : BuildTarget) :
Targets (pkg_obj (set_target w pkg name t) pkg) !! name = Some t.
Proof. rewrite targets_set_target, bool_decide_true; done. Qed.

Lemma getTargetPost_Ok (w : World) (pkg name : string) (t : BuildTarget) :
getTargetPost w pkg name = Ok t <->
Targets (pkg_obj w pkg) !! name = Some t /\ state_ltb (State t) Built = true.
Proof.
unfold getTargetPost. destruct (Targets (pkg_obj w pkg) !! name) as [t'|].
- destruct (state_ltb (State t') Built) eqn:E; simpl; split.
  + intros H; injection H as <-; done.
  + intros [H _]; injection H as <-; done.
  + discriminate.
  + intros [H1 H2]; injection H1 as <-; congruence.
- split; [discriminate | intros [? _]; discriminate].
Qed.

Lemma state_ltb_Built (s : BuildTargetState) :
state_ltb s Built = true <-> state_index s < state_index Built.
Proof. unfold state_ltb. apply Nat.ltb_lt. Qed.

Lemma state_ltb_Built_false (s : BuildTargetState) :
state_ltb s Built = false <-> state_index Built <= state_index s.
Proof. unfold state_ltb. rewrite Nat.ltb_ge. done. Qed.
End InterpFacts.

(** ** Claims about the interpreter callbacks *)
Section MutationClaims.
Import Interp InterpFacts.

(** C4. A post-build callback that mutates a target ([AddDependency],
  [AddOutputPost], [AddLicencePost], [SetCommand]) panics with
  [UnknownTarget] when the package holds no target of that name, and
  with [ImmutableBuiltTarget] when the target's state is [Built] or
  later. On a known target whose state is before [Built] the calls
  proceed: [AddDependency] succeeds when [core.ParseBuildFileLabel]
  parses the dependency and otherwise fails with the parser's panic,
  [AddOutputPost] succeeds or reports a [DuplicateOutput], and the other
  two succeed; any successful call was made on such a target. *)
Theorem post_build_mutation_guard
  (ParseBuildFileLabel : string -> string -> option (BuildLabel * string))
  (w : World) (pkg name : string) :
(Targets (pkg_obj w pkg) !! name = None ->
   (forall cDep e, AddDependencyPost ParseBuildFileLabel w pkg name cDep e = Panic UnknownTarget) /\
   (forall o, AddOutputPost w pkg name o = Panic UnknownTarget) /\
   (forall l, AddLicencePost w pkg name l = Panic UnknownTarget) /\
   (forall c, SetCommand w pkg name c = Panic UnknownTarget)) /\
(forall t, Targets (pkg_obj w pkg) !! name = Some t ->
   state_index Built <= state_index (State t) ->
   (forall cDep e, AddDependencyPost ParseBuildFileLabel w pkg name cDep e
                   = Panic ImmutableBuiltTarget) /\
   (forall o, AddOutputPost w pkg name o = Panic ImmutableBuiltTarget) /\
   (forall l, AddLicencePost w pkg name l = Panic ImmutableBuiltTarget) /\
   (forall c, SetCommand w pkg name c = Panic ImmutableBuiltTarget)) /\
(forall t, Targets (pkg_obj w pkg) !! name = Some t ->
   state_index (State t) < state_index Built ->
   (forall cDep e depf, ParseBuildFileLabel cDep (PackageName (Label t)) = Some depf ->
      exists w', AddDependencyPost ParseBuildFileLabel w pkg name cDep e = Ok w') /\
   (forall cDep e, ParseBuildFileLabel cDep (PackageName (Label t)) = None ->
      AddDependencyPost ParseBuildFileLabel w pkg name cDep e = Panic InvalidLabel) /\
   (forall o, AddOutputPost w pkg name o = Panic DuplicateOutput \/
              exists w', AddOutputPost w pkg name o = Ok w') /\
   (forall l, exists w', AddLicencePost w pkg name l = Ok w') /\
   (forall c, exists w', SetCommand w pkg name c = Ok w' /\
              Targets (pkg_obj w' pkg) !! name = Some (set_Command t c))) /\
((exists cDep e w', AddDependencyPost ParseBuildFileLabel w pkg name cDep e = Ok w') \/
 (exists o w', AddOutputPost w pkg name o = Ok w') \/
 (exists l w', AddLicencePost w pkg name l = Ok w') \/
 (exists c w', SetCommand w pkg name c = Ok w') ->
 exists t, Targets (pkg_obj w pkg) !! name = Some t /\
           state_index (State t) < state_index Built).
Proof.
split; [|split; [|split]].
- intros H. unfold AddDependencyPost, AddOutputPost, AddLicencePost, SetCommand,
    getTargetPost. rewrite H. repeat split.
- intros t H Hs. apply state_ltb_Built_false in Hs.
  unfold AddDependencyPost, AddOutputPost, AddLicencePost, SetCommand,
    getTargetPost. rewrite H, Hs. repeat split.
- intros t H Hs. apply state_ltb_Built in Hs.
  assert (Hg : getTargetPost w pkg name = Ok t) by (apply getTargetPost_Ok; done).
  unfold AddDependencyPost, AddOutputPost, AddLicencePost, SetCommand.
  rewrite Hg; simpl. split; [|split; [|split; [|split]]].
  + intros cDep e depf Hp. rewrite Hp. simpl. eexists; done.
  + intros cDep e Hp. rewrite Hp. done.
  + intros o. destruct (RegisterOutput (pkg_obj w pkg) o t) as [p'|e] eqn:E; simpl.
    * right; eexists; done.
    * left. unfold RegisterOutput in E.
      destruct (PkgOutputs (pkg_obj w pkg) !! o); [|discriminate].
      case_bool_decide; congruence.
  + intros; eexists; done.
  + intros c; eexists; split; [done|]. apply targets_set_target_same.
- intros Hany.
  assert (exists t, getTargetPost w pkg name = Ok t) as [t Ht].
  { unfold AddDependencyPost, AddOutputPost, AddLicencePost, SetCommand in Hany.
    destruct (getTargetPost w pkg name) as [t|]; [eauto|].
    simpl in Hany. destruct Hany as [(? & ? & ? & ?)|[(? & ? & ?)|[(? & ? & ?)|(? & ? & ?)]]];
      discriminate. }
  apply getTargetPost_Ok in Ht as [H1 H2]. apply state_ltb_Built in H2. eauto.
Qed.
End MutationClaims.

Section MutationExamples.
Import Interp ParseFixtures.

(** A [Built] target [t] and an [Active] target [u] of package [p]. *)
Lemma post_build_mutation_guard_witness :
SetCommand (ex_world [("t", ex_tgt "t" Built [] [] []); ("u", ex_tgt "u" Active [] [] [])] [] [])
  "p" "t" "echo" = Panic ImmutableBuiltTarget /\
exists w', SetCommand (ex_world [("t", ex_tgt "t" Built [] [] []); ("u", ex_tgt "u" Active [] [] [])] [] [])
  "p" "u" "echo" = Ok w'.
Proof.
destruct (post_build_mutation_guard ex_pbfl
  (ex_world [("t", ex_tgt "t" Built [] [] []); ("u", ex_tgt "u" Active [] [] [])] [] [])
  "p" "t") as [_ [Hb _]].
destruct (post_build_mutation_guard ex_pbfl
  (ex_world [("t", ex_tgt "t" Built [] [] []); ("u", ex_tgt "u" Active [] [] [])] [] [])
  "p" "u") as [_ [_ [Ha _]]].
split.
- destruct (Hb (ex_tgt "t" Built [] [] [])) as (_ & _ & _ & Hc); [reflexivity | simpl; lia |].
  apply Hc.
- destruct (Ha (ex_tgt "u" Active [] [] [])) as (_ & _ & _ & _ & Hc); [reflexivity | simpl; lia |].
  destruct (Hc "echo") as [w' [Hw _]]. exists w'. exact Hw.
Defined.
End MutationExamples.

Section AddTargetClaims.
Import Interp InterpFacts.

(** C5. [addTarget] panics with [DuplicateTarget] when the package already
  holds a target of that name, then with [TestCommandWithoutTest] for a
  non-empty test command on a non-test, then with [TestWithoutTestCommand]
  for a test with an empty test command. Otherwise (the new label not
  being in the build graph yet) it succeeds: the new target, with the
  given command, test command and flags and state [Inactive], is stored
  in the package under its name, every other target is unchanged, and
  the label is added to the graph when the package is in it. *)
Theorem addTarget_validation (w : World) (pkg name cmd testCmd : string)
  (binary test ntd oic cont nto skip tonly : bool) (flak bt tt : Z) (desc : string) :
let r := addTarget w pkg name cmd testCmd binary test ntd oic cont nto skip tonly
           flak bt tt desc in
let l := mkLabel (PkgName (pkg_obj w pkg)) name in
(is_Some (Targets (pkg_obj w pkg) !! name) -> r = Panic DuplicateTarget) /\
(Targets (pkg_obj w pkg) !! name = None -> testCmd <> "" -> test = false ->
   r = Panic TestCommandWithoutTest) /\
(Targets (pkg_obj w pkg) !! name = None -> test = true -> testCmd = "" ->
   r = Panic TestWithoutTestCommand) /\
(Targets (pkg_obj w pkg) !! name = None ->
 (testCmd <> "" -> test = true) -> (test = true -> testCmd <> "") ->
 l ∉ GraphTargets w ->
 exists w' t, r = Ok (w', l) /\
   Targets (pkg_obj w' pkg) !! name = Some t /\
   Label t = l /\ Command t = cmd /\ TestCommand t = testCmd /\
   IsTest t = test /\ IsBinary t = binary /\ State t = Inactive /\
   (forall pkg' name', (pkg', name') <> (pkg, name) ->
      Targets (pkg_obj w' pkg') !! name' = Targets (pkg_obj w pkg') !! name') /\
   (graph_Package w (PkgName (pkg_obj w pkg)) = true -> l ∈ GraphTargets w')).
Proof.
intros r l. unfold r, addTarget. cbv zeta.
set (t0 := set_flags _ _ _ _ _ _ _ _ _ _ _ _).
set (t1 := if cont then AddLabel t0 "container" else t0).
set (t2 := if bool_decide (desc <> "") then set_BuildingDescription t1 desc else t1).
set (t3 := if binary then AddLabel t2 "bin" else t2).
assert (H3 : Label t3 = l /\ IsTest t3 = test /\ IsBinary t3 = binary /\ State t3 = Inactive).
{ unfold t3, t2, t1. destruct cont, binary; case_bool_decide; done. }
destruct H3 as (HL & HT & HB & HS).
set (target := set_TestCommand (set_Command t3 cmd) testCmd).
split; [|split; [|split]].
- intros Hs. rewrite bool_decide_true by done. done.
- intros Hn Hc Ht. rewrite bool_decide_false by (rewrite Hn; intros [? ?]; discriminate).
  simpl. rewrite bool_decide_true by done. rewrite HT, Ht. done.
- intros Hn Ht Hc. rewrite bool_decide_false by (rewrite Hn; intros [? ?]; discriminate).
  simpl. rewrite bool_decide_false by (intros ?; done). simpl. rewrite HT, Ht, Hc. done.
- intros Hn Hc Ht Hg. rewrite bool_decide_false by (rewrite Hn; intros [? ?]; discriminate).
  assert (E1 : bool_decide (TestCommand target <> "") && negb (IsTest target) = false).
  { simpl. rewrite HT. destruct test; [apply andb_false_r|].
    rewrite bool_decide_false; [done|]. intros Hne. specialize (Hc Hne). discriminate. }
  assert (E2 : IsTest target && bool_decide (TestCommand target = "") = false).
  { simpl. rewrite HT. destruct test; [|done].
    rewrite bool_decide_false; [done|]. apply Ht; done. }
  rewrite E1, E2.
  assert (Hw1 : forall pkg' name', (pkg', name') <> (pkg, name) ->
      Targets (pkg_obj (set_target w pkg name target) pkg') !! name' =
      Targets (pkg_obj w pkg') !! name').
  { intros pkg' name' Hne. rewrite targets_set_target, bool_decide_false; [done|].
    intros [-> ->]; done. }
  assert (Hlab : Label target = l) by (simpl; done).
  destruct (graph_Package (set_target w pkg name target) (PkgName (pkg_obj w pkg))) eqn:Gp.
  + unfold graph_AddTarget. rewrite bool_decide_false by (rewrite Hlab; exact Hg).
    simpl. exists (mkWorld (Packages (set_target w pkg name target))
      (GraphPackages (set_target w pkg name target))
      (GraphTargets (set_target w pkg name target) ++ [Label target])
      (GraphEdges (set_target w pkg name target)) (Deferred (set_target w pkg name target))),
      target.
    rewrite Hlab. split; [simpl; rewrite ?HL; reflexivity|]. split; [apply targets_set_target_same|].
    do 6 (split; [simpl; congruence|]). split; [exact Hw1|].
    intros _. simpl. apply elem_of_app; right; apply list_elem_of_singleton; done.
  + exists (set_target w pkg name target), target. rewrite Hlab.
    split; [done|]. split; [apply targets_set_target_same|].
    do 6 (split; [simpl; congruence|]). split; [exact Hw1|].
    intros Gp'. exfalso. unfold graph_Package in Gp, Gp'. simpl in Gp. congruence.
Qed.
End AddTargetClaims.

Section AddTargetExamples.
Import Interp ParseFixtures.

(** Adding [t] to the empty package [p], which is in the build graph. *)
Lemma addTarget_validation_witness :
exists w', addTarget (ex_world [] ["p"] []) "p" "t" "echo" "" false false false false
  false false false false 0 0 0 "" = Ok (w', mkLabel "p" "t").
Proof.
destruct (addTarget_validation (ex_world [] ["p"] []) "p" "t" "echo" "" false false false
  false false false false false 0 0 0 "") as (_ & _ & _ & H).
destruct H as (w' & t & Hr & _).
- reflexivity.
- intros Hne; exfalso; apply Hne; reflexivity.
- discriminate.
- simpl. apply not_elem_of_nil.
- exists w'. exact Hr.
Defined.
End AddTargetExamples.

(** ** Interpreter: exported dependencies *)
Module ExportFacts.
Import Interp InterpFacts.

Lemma set_add_elem {A} `{EqDecision A} (x y : A) (xs : list A) :
x ∈ set_add y xs <-> x = y \/ x ∈ xs.
Proof.
unfold set_add. case_decide as Hy.
- split; [auto|]. intros [->|?]; done.
- rewrite elem_of_app, list_elem_of_singleton. tauto.
Qed.

Lemma exports_set_target (w : World) (pkg name : string) (t : BuildTarget) :
exports_included w ->
(forall d, d ∈ ExportedDependencies t -> d ∈ DeclaredDependencies t) ->
exports_included (set_target w pkg name t).
Proof.
intros Hw Ht pkg' name' t' H. rewrite targets_set_target in H.
case_bool_decide; [injection H as <-; exact Ht | exact (Hw _ _ _ H)].
Qed.

Lemma exports_AddDependency (t : BuildTarget) (dep : BuildLabel) :
(forall d, d ∈ ExportedDependencies t -> d ∈ DeclaredDependencies t) ->
forall d, d ∈ ExportedDependencies (AddDependency t dep) ->
d ∈ DeclaredDependencies (AddDependency t dep).
Proof. intros Ht d Hd. simpl in *. apply set_add_elem. right. auto. Qed.

Lemma exports_AddExported (t : BuildTarget) (dep : BuildLabel) :
(forall d, d ∈ ExportedDependencies t -> d ∈ DeclaredDependencies t) ->
forall d, d ∈ ExportedDependencies (AddExportedDependency (AddDependency t dep) dep) ->
d ∈ DeclaredDependencies (AddExportedDependency (AddDependency t dep) dep).
Proof.
intros Ht d Hd. simpl in *. apply set_add_elem in Hd. apply set_add_elem.
destruct Hd as [->|Hd]; auto.
Qed.

Lemma exports_with_target (w w' : World) (l : BuildLabel)
  (f : BuildTarget -> result BuildTarget) :
exports_included w ->
(forall t t', (forall d, d ∈ ExportedDependencies t -> d ∈ DeclaredDependencies t) ->
   f t = Ok t' ->
   forall d, d ∈ ExportedDependencies t' -> d ∈ DeclaredDependencies t') ->
with_target w l f = Ok w' ->
exports_included w'.
Proof.
intros Hw Hf Hr. unfold with_target, target_at in Hr.
destruct (Targets (pkg_obj w (PackageName l)) !! Name l) as [t|] eqn:E;
  [|injection Hr as <-; done].
destruct (f t) as [t'|] eqn:Ef; simpl in Hr; [|discriminate].
injection Hr as <-.
apply exports_set_target; [done|]. exact (Hf t t' (Hw _ _ _ E) Ef).
Qed.

Lemma exports_graph_AddDependency (w : World) (a b : BuildLabel) :
exports_included w -> exports_included (graph_AddDependency w a b).
Proof. intros Hw. exact Hw. Qed.

Lemma exports_run_dep_op PBFL (w w' : World) (op : DepOp) :
exports_included w -> run_dep_op PBFL w op = Ok w' -> exports_included w'.
Proof.
intros Hw Hop. destruct op as [l d|l d|pkg name d e]; simpl in Hop.
- unfold AddDep in Hop. eapply (exports_with_target w w' l _ Hw); [|exact Hop].
  intros t t' Ht Hf. cbv beta in Hf. destruct (PBFL d (PackageName (Label t))) as [df|]; simpl in Hf; [|discriminate].
  injection Hf as <-. apply exports_AddDependency; done.
- unfold AddExportedDep in Hop. eapply (exports_with_target w w' l _ Hw); [|exact Hop].
  intros t t' Ht Hf. cbv beta in Hf. destruct (PBFL d (PackageName (Label t))) as [df|]; simpl in Hf; [|discriminate].
  injection Hf as <-. apply exports_AddExported; done.
- unfold AddDependencyPost in Hop.
  destruct (getTargetPost w pkg name) as [t|] eqn:G; simpl in Hop; [|discriminate].
  destruct (PBFL d (PackageName (Label t))) as [df|]; simpl in Hop; [|discriminate].
  injection Hop as <-. apply exports_graph_AddDependency, exports_set_target; [done|].
  apply getTargetPost_Ok in G as [G _].
  pose proof (Hw _ _ _ G) as Ht.
  destruct e; [apply exports_AddExported | apply exports_AddDependency]; done.
Qed.

Lemma exports_included_of_map (w : World) :
map_Forall (fun _ p => map_Forall
  (fun _ t => ExportedDependencies t ⊆ DeclaredDependencies t) (Targets p)) (Packages w) ->
exports_included w.
Proof.
intros H pkg name t Ht d Hd. unfold pkg_obj in Ht.
destruct (Packages w !! pkg) as [p|] eqn:E; simpl in Ht.
- exact (H pkg p E name t Ht d Hd).
- rewrite lookup_empty in Ht. discriminate.
Qed.
End ExportFacts.

Section ExportClaims.
Import Interp ExportFacts.

(** C9. Starting from a store where every target's exported dependencies
  are among its dependencies, any sequence of [AddDep], [AddExportedDep]
  and [AddDependency] calls (exported or not) that does not panic ends
  in a store with the same property. *)
Theorem exports_included_preserved
  (ParseBuildFileLabel : string -> string -> option (BuildLabel * string))
  (w w' : World) (ops : list DepOp) :
exports_included w -> run_dep_ops ParseBuildFileLabel w ops = Ok w' ->
exports_included w'.
Proof.
revert w. induction ops as [|op ops IH]; intros w Hw Hr; simpl in Hr.
- injection Hr as <-. exact Hw.
- destruct (run_dep_op ParseBuildFileLabel w op) as [w1|] eqn:E; simpl in Hr; [|discriminate].
  exact (IH w1 (exports_run_dep_op _ _ _ _ Hw E) Hr).
Qed.
End ExportClaims.

Section ExportExamples.
Import Interp ExportFacts ParseFixtures.

(** Target [t] of [p] gains the exported dependencies [d] and [e]. *)
Lemma exports_included_preserved_witness :
exists w', run_dep_ops ex_pbfl (ex_world [("t", ex_tgt "t" Active [] [] [])] [] [])
  [OpAddExportedDep (mkLabel "p" "t") "d"; OpAddDependency "p" "t" "e" true;
   OpAddDep (mkLabel "p" "t") "f"] = Ok w' /\ exports_included w'.
Proof.
eexists. split; [reflexivity|].
apply (exports_included_preserved ex_pbfl (ex_world [("t", ex_tgt "t" Active [] [] [])] [] [])
  _ [OpAddExportedDep (mkLabel "p" "t") "d"; OpAddDependency "p" "t" "e" true;
     OpAddDep (mkLabel "p" "t") "f"]); [|reflexivity].
apply exports_included_of_map. apply (bool_decide_unpack _). vm_compute. reflexivity.
Defined.
End ExportExamples.

(** ** Interpreter: [parseSource] *)
Module ParseSourceFacts.
Import Interp.

Lemma check_dirs_not_index (FileExists : string -> bool) (buildFileNames : list string)
  (fuel : nat) (pkg dir : string) :
check_dirs FileExists buildFileNames fuel pkg dir <> Panic IndexOutOfRange.
Proof.
revert dir. induction fuel as [|f IH]; intros dir; simpl; [discriminate|].
destruct (bool_decide (dir <> pkg) && bool_decide (dir <> ".")); [|discriminate].
destruct (isPackage FileExists buildFileNames dir); [discriminate|]. apply IH.
Qed.
End ParseSourceFacts.

Section ParseSourceClaims.
Import Interp ParseSourceFacts.

(** C10. The empty source string is not a build label and contains neither
  ["../"] nor ["/"]; on it [parseSource] reads [src[0]] and panics with an
  index out of range, and so do [AddSource], [AddNamedSource] and
  [AddData]. On every non-empty string [parseSource] never panics that
  way. *)
Theorem parseSource_empty_source
  (ParseBuildFileLabel : string -> string -> option (BuildLabel * string))
  (FileExists : string -> bool) (buildFileNames : list string) :
LooksLikeABuildLabel "" = false /\ Contains "" "../" = false /\ Contains "" "/" = false /\
(forall p, parseSource ParseBuildFileLabel FileExists buildFileNames "" p
           = Panic IndexOutOfRange) /\
(forall s p, s <> "" ->
   parseSource ParseBuildFileLabel FileExists buildFileNames s p <> Panic IndexOutOfRange) /\
(forall t ins, AddSource ParseBuildFileLabel FileExists buildFileNames t ins ""
               = Panic IndexOutOfRange) /\
(forall t ins n, AddNamedSource ParseBuildFileLabel FileExists buildFileNames t ins n ""
                 = Panic IndexOutOfRange) /\
(forall t ins, AddData ParseBuildFileLabel FileExists buildFileNames t ins ""
               = Panic IndexOutOfRange).
Proof.
split; [reflexivity|]. split; [reflexivity|]. split; [reflexivity|].
split; [intros; reflexivity|].
split; [|split; [|split]]; [|intros; reflexivity ..].
intros s p Hs. unfold parseSource.
destruct (LooksLikeABuildLabel s).
- destruct (ParseBuildFileLabel s p) as [[l f]|]; simpl; [case_bool_decide|]; discriminate.
- destruct (Contains s "../"); [discriminate|].
  destruct s as [|c rest]; [done|].
  case_bool_decide; [discriminate|].
  destruct (Contains (String c rest) "/"); [|discriminate].
  destruct (check_dirs _ _ _ _ _) as [[]|e] eqn:E; simpl; [discriminate|].
  intros He. injection He as ->. exact (check_dirs_not_index _ _ _ _ _ E).
Qed.

(** C3. Two sources [parseSource] does not classify as the rule says.
  The empty string, which is neither a label nor a path with a slash,
  panics instead of becoming a file of the package. In package [x/y],
  whose parent [x] is a package, ["a/.."] contains a slash and no
  ["../"] and names [x/y] itself, so no directory lies strictly between
  it and the package; yet the walk starts at the parent of the cleaned
  path, [x], and panics with [CrossPackageFile]. *)
Theorem parseSource_classification_divergence
  (ParseBuildFileLabel : string -> string -> option (BuildLabel * string)) :
parseSource ParseBuildFileLabel ParseFixtures.ex_exists ["BUILD"] "" "x/y"
  = Panic IndexOutOfRange /\
LooksLikeABuildLabel "a/.." = false /\ Contains "a/.." "../" = false /\
Contains "a/.." "/" = true /\ Join "x/y" "a/.." = "x/y" /\
parseSource ParseBuildFileLabel ParseFixtures.ex_exists ["BUILD"] "a/.." "x/y"
  = Panic CrossPackageFile.
Proof. repeat split. Qed.
End ParseSourceClaims.

Section ParseSourceExamples.
Import Interp ParseFixtures.

Lemma parseSource_empty_source_witness :
"a.go" <> "" /\ parseSource ex_pbfl ex_exists ["BUILD"] "a.go" "p" <> Panic IndexOutOfRange.
Proof.
split; [discriminate|].
destruct (parseSource_empty_source ex_pbfl ex_exists ["BUILD"]) as (_ & _ & _ & _ & H & _).
apply H. discriminate.
Defined.
End ParseSourceExamples.

Module SubincludeFacts.
Import Interp InterpFacts.

(** [GetSubincludeFile] case by case. A malformed label is [core]'s
  panic. For the label [L] that [cLabel] names from package [pkg], with
  no target [L] in the build graph, it records a deferred parse of
  [(L, pkg)] and returns [DEFER] when [L]'s package is not in the graph,
  and panics with [Unsubincludable] when it is. With a target [T] in the
  graph, the checks come in this order: a [VisibilityViolation] panic
  when the package cannot see [T]; a [MultipleOutputs] panic unless [T]
  has exactly one output; a deferral and [DEFER] when [T]'s state is
  before [Built]; and otherwise the path of the output under [T]'s
  output directory. *)
Lemma GetSubincludeFile_cases
  (ParseBuildLabel : string -> string -> option BuildLabel)
  (CanSee : BuildTarget -> BuildTarget -> bool) (OutDir : BuildTarget -> string)
  (w : World) (pkg cLabel : string) :
let pkgName := PkgName (pkg_obj w pkg) in
let r := GetSubincludeFile ParseBuildLabel CanSee OutDir w pkg cLabel in
let sees T := CanSee (NewBuildTarget (mkLabel pkgName "all")) T in
(ParseBuildLabel cLabel pkgName = None -> r = Panic InvalidLabel) /\
forall L, ParseBuildLabel cLabel pkgName = Some L ->
(graph_Target w L = None -> PackageName L ∉ GraphPackages w ->
   r = Ok (DEFER, deferParse w L pkg)) /\
(graph_Target w L = None -> PackageName L ∈ GraphPackages w ->
   r = Panic Unsubincludable) /\
(forall T, graph_Target w L = Some T -> sees T = false -> r = Panic VisibilityViolation) /\
(forall T, graph_Target w L = Some T -> sees T = true -> length (Outputs T) <> 1 ->
   r = Panic MultipleOutputs) /\
(forall T o, graph_Target w L = Some T -> sees T = true -> Outputs T = [o] ->
   state_index (State T) < state_index Built -> r = Ok (DEFER, deferParse w L pkg)) /\
(forall T o, graph_Target w L = Some T -> sees T = true -> Outputs T = [o] ->
   state_index Built <= state_index (State T) ->
   r = Ok (SubincludePath (Join (OutDir T) o), w)).
Proof.
intros pkgName r sees. unfold r, GetSubincludeFile. fold pkgName.
split; [intros HL; rewrite HL; done|].
intros L HL. rewrite HL. simpl.
split; [|split; [|split; [|split; [|split]]]].
- intros HT Hp. rewrite HT. unfold graph_Package. rewrite bool_decide_false by done. done.
- intros HT Hp. rewrite HT. unfold graph_Package. rewrite bool_decide_true by done. done.
- intros T HT Hs. rewrite HT. unfold sees in Hs. rewrite Hs. done.
- intros T HT Hs Hl. rewrite HT. unfold sees in Hs. rewrite Hs. simpl.
  destruct (Outputs T) as [|o [|o' os]]; simpl in Hl; done.
- intros T o HT Hs Ho Hst. rewrite HT. unfold sees in Hs. rewrite Hs, Ho. simpl.
  apply state_ltb_Built in Hst. rewrite Hst. done.
- intros T o HT Hs Ho Hst. rewrite HT. unfold sees in Hs. rewrite Hs, Ho. simpl.
  apply state_ltb_Built_false in Hst. rewrite Hst. done.
Qed.
End SubincludeFacts.

Section SubincludeClaims.
Import Interp InterpFacts SubincludeFacts.

(** C2. The rule returns a path only for a [Built] target and makes every
  other case defer or fail. The code's state check is [State() < Built]:
  a visible target in state [Failed], which the state order puts after
  [Built], with a single output passes it, and [GetSubincludeFile]
  returns the path of that output as if the target were ready. *)
Theorem GetSubincludeFile_failed_target_path
  (ParseBuildLabel : string -> string -> option BuildLabel)
  (CanSee : BuildTarget -> BuildTarget -> bool) (OutDir : BuildTarget -> string)
  (w : World) (pkg cLabel : string) (L : BuildLabel) (T : BuildTarget) (o : string) :
ParseBuildLabel cLabel (PkgName (pkg_obj w pkg)) = Some L ->
graph_Target w L = Some T ->
CanSee (NewBuildTarget (mkLabel (PkgName (pkg_obj w pkg)) "all")) T = true ->
Outputs T = [o] -> State T = Failed ->
State T <> Built /\ state_index Built < state_index (State T) /\
GetSubincludeFile ParseBuildLabel CanSee OutDir w pkg cLabel
  = Ok (SubincludePath (Join (OutDir T) o), w).
Proof.
intros HL HT Hs Ho Hf. rewrite Hf.
split; [discriminate|]. split; [simpl; lia|].
destruct (GetSubincludeFile_cases ParseBuildLabel CanSee OutDir w pkg cLabel)
  as [_ Hc].
destruct (Hc L HL) as (_ & _ & _ & _ & _ & H).
apply (H T o HT Hs Ho). rewrite Hf. simpl. lia.
Qed.
End SubincludeClaims.

Section SubincludeExamples.
Import Interp ParseFixtures.

(** A visible [Failed] target [gen] of [p] with the single output [a]. *)
Lemma GetSubincludeFile_failed_target_path_witness :
GetSubincludeFile ex_pbl ex_see ex_outdir
  (ex_world [("gen", ex_tgt "gen" Failed ["a"] [] [])] ["p"] [mkLabel "p" "gen"])
  "p" "gen"
= Ok (SubincludePath "plz-out/gen/p/a",
      ex_world [("gen", ex_tgt "gen" Failed ["a"] [] [])] ["p"] [mkLabel "p" "gen"]).
Proof.
apply (GetSubincludeFile_failed_target_path ex_pbl ex_see ex_outdir
  (ex_world [("gen", ex_tgt "gen" Failed ["a"] [] [])] ["p"] [mkLabel "p" "gen"])
  "p" "gen" (mkLabel "p" "gen") (ex_tgt "gen" Failed ["a"] [] []) "a");
  reflexivity.
Defined.
End SubincludeExamples.

(** ** Interpreter: labels of the transitive dependencies *)
Module LabelFacts.
Import Interp.

(** Induction over a target and, recursively, its resolved dependencies. *)
Lemma BuildTarget_deps_ind (P : BuildTarget -> Prop)
  (H : forall t, Forall P (Dependencies t) -> P t) : forall t, P t.
Proof.
fix IH 1. intros t. apply H.
destruct t as [? ? ? ? ? ? ? ? ? ? ? ? ? ? ? ? ? ? ? ? ? ? deps]; simpl.
revert deps. fix IHl 1. intros [|d ds].
- constructor.
- constructor; [apply IH | apply IHl].
Qed.

Lemma collect_labels_eq (prefix : string) (t : BuildTarget) :
collect_labels prefix t =
map (fun label => TrimSpace (TrimPrefix label prefix))
  (filter (fun label => HasPrefix label prefix) (Labels t)) ++
flat_map (collect_labels prefix) (Dependencies t).
Proof.
destruct t; reflexivity.
Qed.

Lemma transitive_targets_eq (t : BuildTarget) :
transitive_targets t = t :: flat_map transitive_targets (Dependencies t).
Proof.
destruct t; reflexivity.
Qed.

Lemma elem_of_flat_map {A B} (f : A -> list B) (l : list A) (y : B) :
y ∈ flat_map f l <-> exists x, x ∈ l /\ y ∈ f x.
Proof.
rewrite list_elem_of_In, in_flat_map.
split; intros [x [H1 H2]]; exists x; rewrite ?list_elem_of_In in *; done.
Qed.

(** A label of [u] with the prefix gives [x]. *)
Definition label_hit (prefix : string) (u : BuildTarget) (x : string) : Prop :=
exists l, l ∈ Labels u /\ HasPrefix l prefix = true /\ x = TrimSpace (TrimPrefix l prefix).

Lemma own_labels_spec (prefix : string) (t : BuildTarget) (x : string) :
x ∈ map (fun label => TrimSpace (TrimPrefix label prefix))
      (filter (fun label => HasPrefix label prefix) (Labels t)) <->
label_hit prefix t x.
Proof.
unfold label_hit. rewrite list_elem_of_In, in_map_iff. split.
- intros [l [Hx Hl]]. rewrite <- list_elem_of_In, list_elem_of_filter in Hl.
  destruct Hl as [Hp Hl]. exists l. split; [done|]. split; [|done].
  destruct (HasPrefix l prefix); done.
- intros [l (Hl & Hp & Hx)]. exists l. split; [done|].
  rewrite <- list_elem_of_In, list_elem_of_filter. split; [|done]. rewrite Hp. done.
Qed.

Lemma collect_labels_spec (prefix : string) (t : BuildTarget) (x : string) :
x ∈ collect_labels prefix t <->
exists u, u ∈ transitive_targets t /\ label_hit prefix u x.
Proof.
revert x. induction t as [t IH] using BuildTarget_deps_ind. intros x.
rewrite collect_labels_eq, transitive_targets_eq, elem_of_app, own_labels_spec,
  elem_of_flat_map.
rewrite Forall_forall in IH. split.
- intros [Hh|[d [Hd Hx]]].
  + exists t. split; [apply elem_of_cons; left; done | done].
  + apply IH in Hx as [u [Hu Hh]]; [|done]. exists u. split; [|done].
    apply elem_of_cons; right. apply elem_of_flat_map. eauto.
- intros [u [Hu Hh]]. apply elem_of_cons in Hu as [->|Hu]; [left; done|].
  apply elem_of_flat_map in Hu as [d [Hd Hu]]. right. exists d. split; [done|].
  apply IH; eauto.
Qed.
End LabelFacts.

Section LabelClaims.
Import Interp InterpFacts LabelFacts.

(** C6. For a stored target [t] in state [Building], [GetLabels] returns a
  list sorted in byte order, without duplicates, whose elements are
  exactly the strings obtained from the labels with the prefix of [t]
  and of its transitive dependencies, with the prefix removed and
  surrounding white space trimmed. In any other state, and for a name
  the package does not hold, it fails. *)
Theorem GetLabels_result (w : World) (pkg name prefix : string) :
(forall t, Targets (pkg_obj w pkg) !! name = Some t -> State t = Building ->
   exists ls, GetLabels w pkg name prefix = Ok ls /\ Sorted String.le ls /\ NoDup ls /\
     forall x, x ∈ ls <-> exists u l, u ∈ transitive_targets t /\ l ∈ Labels u /\
       HasPrefix l prefix = true /\ x = TrimSpace (TrimPrefix l prefix)) /\
(forall t, Targets (pkg_obj w pkg) !! name = Some t -> State t <> Building ->
   exists e, GetLabels w pkg name prefix = Panic e) /\
(Targets (pkg_obj w pkg) !! name = None -> GetLabels w pkg name prefix = Panic UnknownTarget).
Proof.
split; [|split].
- intros t Ht Hs.
  assert (Hg : getTargetPost w pkg name = Ok t).
  { apply getTargetPost_Ok. split; [done|]. rewrite Hs. reflexivity. }
  unfold GetLabels. rewrite Hg. simpl. rewrite Hs.
  eexists. split; [reflexivity|]. split; [apply Sorted_merge_sort; exact String.le_total|]. split.
  + rewrite merge_sort_Permutation. apply NoDup_remove_dups.
  + intros x. rewrite merge_sort_Permutation, elem_of_remove_dups, collect_labels_spec.
    unfold label_hit. split.
    * intros [u [Hu [l Hl]]]. eauto.
    * intros (u & l & Hu & Hl). eauto.
- intros t Ht Hs. unfold GetLabels, getTargetPost. rewrite Ht.
  destruct (negb (state_ltb (State t) Built)); simpl; [eauto|].
  destruct (State t); try (eexists; reflexivity). done.
- intros Ht. unfold GetLabels, getTargetPost. rewrite Ht. done.
Qed.
End LabelClaims.

Section LabelExamples.
Import Interp ParseFixtures.

(** A [Building] target [t] labelled [foo:x] whose dependency [d] is
  labelled [foo:a], [foo:x] and [bar]. *)
Lemma GetLabels_result_witness :
exists ls, GetLabels (ex_world [("t", ex_tgt "t" Building [] ["foo:x"]
    [ex_tgt "d" Built [] ["foo:a"; "foo:x"; "bar"] []])] [] []) "p" "t" "foo:" = Ok ls /\
  Sorted String.le ls /\ NoDup ls.
Proof.
destruct (GetLabels_result (ex_world [("t", ex_tgt "t" Building [] ["foo:x"]
    [ex_tgt "d" Built [] ["foo:a"; "foo:x"; "bar"] []])] [] []) "p" "t" "foo:")
  as [H _].
destruct (H (ex_tgt "t" Building [] ["foo:x"] [ex_tgt "d" Built [] ["foo:a"; "foo:x"; "bar"] []]))
  as (ls & H1 & H2 & H3 & _); [reflexivity | reflexivity |].
exists ls. split; [exact H1|]. split; [exact H2 | exact H3].
Defined.

(** The label [foo: bar] with prefix [foo:] gives [bar], not [ bar]: the
  space after the prefix is trimmed. *)
Lemma GetLabels_trims_space :
GetLabels (ex_world [("t", ex_tgt "t" Building [] ["foo: bar"] [])] [] []) "p" "t" "foo:"
  = Ok ["bar"] /\ " bar" ∉ ["bar"].
Proof. split; [vm_compute; reflexivity | set_solver]. Qed.
End LabelExamples.

Section GlobClaims.
Import Interp GlobModel ParseFixtures.

(** C7. In package [p], whose subdirectory [p/sub] is a package of its
  own, [Glob] with the include [sub/inner.go] (no [**]) returns the file
  [sub/inner.go] of the sub-package: the pattern goes to
  [filepath.Glob], which does not look for build files. The same tree
  globbed with [**/*.go] skips [p/sub]. *)
Theorem Glob_returns_subpackage_file
  (regexCompile : string -> option (string -> bool))
  (globMeta : string -> option (list string)) (Match : string -> string -> option bool) :
isPackageIn ex_tree ["BUILD"] "p/sub" = true /\
Lstat ex_tree "p/sub/inner.go" = Some (EFile "inner.go") /\
Glob ex_tree ["BUILD"] regexCompile globMeta Match "p" ["sub/inner.go"] [] false
  = Ok ["sub/inner.go"] /\
Glob ex_tree ["BUILD"] ex_regex globMeta Match "p" ["**/*.go"] [] false = Ok ["a.go"].
Proof. split; [reflexivity|]. split; [reflexivity|]. split; reflexivity. Qed.
End GlobClaims.

(** ** Directory cache: where [Store], [Retrieve] and [Clean] write *)
Module DirCacheFrame.
Import DirCache DirCacheFacts DirCacheMore.

Section Confined.
Variables U A : path -> Prop.

Lemma confined_refl g : confined U A g g.
Proof. by intros q []. Qed.

Lemma confined_trans g1 g2 g3 :
  confined U A g1 g2 -> confined U A g2 g3 -> confined U A g1 g3.
Proof.
  intros H12 H23 q N. destruct (decide (g3 q = g2 q)) as [E|E].
  - rewrite E in N |- *. by apply H12.
  - by apply H23.
Qed.

Lemma confined_weaken (U' A' : path -> Prop) g g' :
  (forall q, U' q -> U q) -> (forall q, A' q -> U q \/ A q) ->
  confined U' A' g g' -> confined U A g g'.
Proof.
  intros HU HA H q N. destruct (H q N) as [Hu|[Ha Hd]]; [by left; apply HU|].
  destruct (HA q Ha); [by left|by right].
Qed.
End Confined.

Lemma confined_RemoveAll p (A : path -> Prop) g :
  confined (fun q => exists s, q = p ++ s) A g (RemoveAll p g).
Proof.
  intros q N. left. unfold RemoveAll in N.
  destruct (is_prefix p q) eqn:E; [by apply is_prefix_spec|done].
Qed.

Lemma confined_MkdirAll p (U : path -> Prop) g g' :
  MkdirAll p g = Some g' ->
  confined U (fun q => q <> [] /\ exists s, p = q ++ s) g g'.
Proof.
  intros E q N. right. destruct (MkdirAll_some _ _ _ E q) as [Eq|(_ & Hd & Hq & Hs)];
    [done|]. done.
Qed.

Lemma confined_Copy from to m l (A : path -> Prop) g g' :
  RecursiveCopyFile from to m l g = Some g' ->
  confined (fun q => exists s, q = to ++ s) A g g'.
Proof.
  intros E q N. left. destruct (Copy_some _ _ _ _ _ _ E) as [C1 _].
  destruct (is_prefix to q) eqn:H; [by apply is_prefix_spec|].
  exfalso. apply N, C1. by apply is_prefix_false.
Qed.

Section StoreRetrieve.
Import DirCache DirCacheFacts DirCacheMore.
Variable encodeKey : string -> string.
Variable outDir : BuildTarget -> path.
Variable cache : dirCache.
Variable t : BuildTarget.
Variable key : string.

Let cD := getPath encodeKey cache t key.
Let U q := exists s, q = cD ++ s.
Let A q := q <> [] /\ exists s, cD = q ++ s.

Lemma anc_split s q : q <> [] /\ (exists r, cD ++ s = q ++ r) -> U q \/ A q.
Proof.
  intros [Hq [r Hr]]. apply app_eq_app in Hr as [k [[H1 _]|[H1 _]]].
  - right. split; [done|]. by exists k.
  - left. by exists k.
Qed.

Lemma StoreExtra_confined out g :
  confined U A g (StoreExtra encodeKey outDir cache t key out g).
Proof.
  unfold StoreExtra. fold cD.
  destruct (if bool_decide _ then _ else _) as [g1|] eqn:E1; [|apply confined_refl].
  apply (confined_trans _ _ _ g1).
  { case_bool_decide; [injection E1 as <-; apply confined_refl|].
    eapply confined_weaken; [| |by apply confined_MkdirAll with (U := U)]; [done|].
    apply anc_split. }
  apply (confined_trans _ _ _ (RemoveAll (cD ++ out) g1)).
  { eapply confined_weaken; [| |apply confined_RemoveAll with (A := A)]; [|by right].
    intros q [s ->]. exists (out ++ s). by rewrite app_assoc. }
  destruct (MkdirAll cD _) as [g3|] eqn:E3; [|apply confined_refl].
  apply (confined_trans _ _ _ g3).
  { eapply confined_weaken; [| |by apply confined_MkdirAll with (U := U)]; [done|].
    intros q Hq. by right. }
  destruct (RecursiveCopyFile _ _ _ _ _) as [g4|] eqn:E4; [|apply confined_refl].
  eapply confined_weaken; [| |by apply confined_Copy with (A := A) in E4]; [|by right].
  intros q [s ->]. exists (out ++ s). by rewrite app_assoc.
Qed.

Lemma Store_confined_lemma g :
  confined U A g (Store encodeKey outDir cache t key g).
Proof.
  unfold Store. fold cD.
  apply (confined_trans _ _ _ (RemoveAll cD g)); [apply confined_RemoveAll|].
  generalize (RemoveAll cD g). clear g.
  induction (cacheArtifacts t) as [|o outs IH]; intros g; simpl; [apply confined_refl|].
  eapply confined_trans; [apply StoreExtra_confined|apply IH].
Qed.

Let UR q := exists out, out ∈ cacheArtifacts t /\ exists s, q = outDir t ++ out ++ s.
Let AR q := exists out, out ∈ cacheArtifacts t /\ q <> [] /\ exists s, outDir t ++ out = q ++ s.

Lemma RetrieveExtra_confined out g :
  out ∈ cacheArtifacts t ->
  confined UR AR g (snd (RetrieveExtra encodeKey outDir cache t key out g)).
Proof.
  intros Hout. unfold RetrieveExtra. cbv zeta.
  destruct (negb _); [apply confined_refl|].
  destruct (if bool_decide _ then _ else _) as [g1|] eqn:E1; [|apply confined_refl].
  apply (confined_trans _ _ _ g1).
  { case_bool_decide; [injection E1 as <-; apply confined_refl|].
    eapply confined_weaken; [| |by apply confined_MkdirAll with (U := UR)]; [done|].
    intros q [Hq [r Hr]]. right. exists out. split; [done|]. split; [done|].
    destruct (DirCacheRetrieve.removelast_prefix (outDir t ++ out)) as [w Hw].
    exists (r ++ w). rewrite Hw at 1. unfold Dir in Hr. rewrite Hr. by rewrite app_assoc. }
  apply (confined_trans _ _ _ (RemoveAll (outDir t ++ out) g1)).
  { eapply confined_weaken; [| |apply confined_RemoveAll with (A := AR)]; [|by right].
    intros q [s ->]. exists out. split; [done|]. exists s. by rewrite app_assoc. }
  destruct (RecursiveCopyFile _ _ _ _ _) as [g3|] eqn:E3; [|apply confined_refl].
  eapply confined_weaken; [| |by apply confined_Copy with (A := AR) in E3]; [|by right].
  intros q [s ->]. exists out. split; [done|]. exists s. by rewrite app_assoc.
Qed.

Lemma retrieve_all_confined outs g :
  (forall o, o ∈ outs -> o ∈ cacheArtifacts t) ->
  confined UR AR g (snd (retrieve_all encodeKey outDir cache t key outs g)).
Proof.
  revert g. induction outs as [|o outs IH]; intros g Hs; simpl; [apply confined_refl|].
  pose proof (RetrieveExtra_confined o g) as H.
  destruct (RetrieveExtra encodeKey outDir cache t key o g) as [[] g1]; simpl in *.
  - eapply confined_trans; [apply H, Hs, elem_of_cons; by left|].
    apply IH. intros o' Ho'. apply Hs, elem_of_cons. by right.
  - apply H, Hs, elem_of_cons. by left.
Qed.

Lemma Retrieve_confined_lemma g :
  confined UR AR g (snd (Retrieve encodeKey outDir cache t key g)).
Proof.
  unfold Retrieve. cbv zeta. destruct (negb _); [apply confined_refl|].
  by apply retrieve_all_confined.
Qed.
End StoreRetrieve.
End DirCacheFrame.

(** ** Extra properties of the directory cache *)
Section CacheFrameExtras.
Import DirCache DirCacheFacts DirCacheMore DirCacheFrame.

Lemma HasPrefix_slash (r : string) : HasPrefix (String "/" r) "/" = true.
Proof. by destruct r. Qed.

Lemma HasPrefix_slash_inv (s : string) :
  HasPrefix s "/" = true -> exists r, s = String "/" r.
Proof.
destruct s as [|c r]; [discriminate|]. unfold HasPrefix.
cbn -[Ascii.ascii_dec]. destruct (Ascii.ascii_dec "/" c) as [<-|]; [by exists r|discriminate].
Qed.

(** For a key directory and artifact paths without a [..] component (on
  which [path_of] and Go's [path.Join] agree), [Store] changes the
  filesystem only below the key directory [getPath cache t key]; any
  other path it changes is an ancestor of that directory, where it leaves
  a directory. *)
Theorem Store_writes_only_key_dir (encodeKey : string -> string)
  (outDir : BuildTarget -> path) (cache : dirCache) (t : BuildTarget) (key : string)
  (fs : FS) (q : path) :
".." ∉ getPath encodeKey cache t key ->
(forall out, out ∈ cacheArtifacts t -> ".." ∉ out) ->
Store encodeKey outDir cache t key fs q <> fs q ->
(exists s, q = getPath encodeKey cache t key ++ s) \/
(q <> [] /\ (exists s, getPath encodeKey cache t key = q ++ s) /\
 Store encodeKey outDir cache t key fs q = Some NDir).
Proof.
intros _ _ H. destruct (Store_confined_lemma encodeKey outDir cache t key fs q H)
  as [HU|[[Hq HA] HD]]; [by left|by right].
Qed.

(** For an out-dir and artifact paths without a [..] component (on which
  [path_of] and Go's [path.Join] agree), [Retrieve] changes the
  filesystem only below the output paths [outDir t ++ out] of the
  target's artifacts, and any other path it changes is an ancestor of one
  of them, where it leaves a directory. So when the out-dir and the cache
  directory are disjoint, [Retrieve] never modifies anything in the
  cache. *)
Theorem Retrieve_writes_only_outputs (encodeKey : string -> string)
  (outDir : BuildTarget -> path) (cache : dirCache) (t : BuildTarget) (key : string)
  (fs : FS) :
".." ∉ outDir t ->
(forall out, out ∈ cacheArtifacts t -> ".." ∉ out) ->
(forall q, snd (Retrieve encodeKey outDir cache t key fs) q <> fs q ->
 exists out, out ∈ cacheArtifacts t /\
  ((exists s, q = outDir t ++ out ++ s) \/
   (q <> [] /\ (exists s, outDir t ++ out = q ++ s) /\
    snd (Retrieve encodeKey outDir cache t key fs) q = Some NDir))) /\
(disjoint (outDir t) (CacheDir cache) ->
 forall s, snd (Retrieve encodeKey outDir cache t key fs) (CacheDir cache ++ s)
           = fs (CacheDir cache ++ s)).
Proof.
intros _ _. split.
- intros q H. destruct (Retrieve_confined_lemma encodeKey outDir cache t key fs q H)
    as [(out & Ho & Hs)|[(out & Ho & Hq & Hs) HD]].
  + exists out. split; [done|]. by left.
  + exists out. split; [done|]. by right.
- intros Hd s.
  destruct (decide (snd (Retrieve encodeKey outDir cache t key fs) (CacheDir cache ++ s)
                    = fs (CacheDir cache ++ s))) as [E|H]; [exact E|exfalso].
  destruct (Retrieve_confined_lemma encodeKey outDir cache t key fs _ H)
    as [(out & Ho & r & Hr)|[(out & Ho & Hq & r & Hr) HD]].
  + apply (Hd (out ++ r) s). by rewrite Hr.
  + apply (Hd out (s ++ r)). by rewrite Hr, app_assoc.
Qed.

(** After [Clean t], [Retrieve] misses for [t] under every key and leaves
  the filesystem as it is; so does it for every target [t'] whose key
  directory lies below the cleaned directory [CacheDir/pkg/name] (for
  instance [//a/b:c] after cleaning [//a:b]). *)
Theorem Clean_then_Retrieve_misses (encodeKey : string -> string)
  (outDir : BuildTarget -> path) (cache : dirCache) (t : BuildTarget) (fs : FS) :
(forall key, Retrieve encodeKey outDir cache t key (Clean cache t fs) =
             (false, Clean cache t fs)) /\
(forall t' key,
   (exists s, getPath encodeKey cache t' key =
              CacheDir cache ++ path_of (PackageName (Label t)) ++ [Name (Label t)] ++ s) ->
   Retrieve encodeKey outDir cache t' key (Clean cache t fs) = (false, Clean cache t fs)).
Proof.
assert (Hgen : forall t' key,
   (exists s, getPath encodeKey cache t' key =
              CacheDir cache ++ path_of (PackageName (Label t)) ++ [Name (Label t)] ++ s) ->
   Retrieve encodeKey outDir cache t' key (Clean cache t fs) = (false, Clean cache t fs)).
{ intros t' key [s Hs]. unfold Retrieve. cbv zeta.
  assert (E : PathExists (getPath encodeKey cache t' key) (Clean cache t fs) = false).
  { unfold PathExists, Clean, RemoveAll.
    rewrite (proj2 (is_prefix_spec _ _)); [done|].
    exists s. rewrite Hs. by rewrite !app_assoc. }
  by rewrite E. }
split; [|exact Hgen].
intros key. apply Hgen. exists [encodeKey key]. unfold getPath. done.
Qed.

(** [newDirCache] panics on an empty cache directory setting; otherwise
  it settles on a directory, and an absolute repository root always gives
  an absolute cache directory. *)
Theorem newDirCache_Dir_absolute (RepoRoot cfgDir : string) :
newDirCache_Dir RepoRoot "" = Panic IndexOutOfRange /\
(cfgDir <> "" -> exists d, newDirCache_Dir RepoRoot cfgDir = Ok d) /\
(forall d, HasPrefix RepoRoot "/" = true -> newDirCache_Dir RepoRoot cfgDir = Ok d ->
 HasPrefix d "/" = true).
Proof.
split; [done|]. split.
- intros Hne. destruct cfgDir as [|c r]; [done|]. simpl.
  case_bool_decide; eexists; reflexivity.
- intros d HR Hd. destruct cfgDir as [|c r]; [discriminate|]. simpl in Hd.
  case_bool_decide as Hc.
  + injection Hd as <-. subst c. apply HasPrefix_slash.
  + injection Hd as <-. apply HasPrefix_slash_inv in HR as [R ->].
    unfold Join, GoPath.Clean. simpl. apply HasPrefix_slash.
Qed.
End CacheFrameExtras.

Section CacheFrameExamples.
Import DirCache DirCacheMore CacheFixtures.

(** Storing [out/z] writes the file [cache/p/n/k/z], below the key directory. *)
Lemma Store_writes_only_key_dir_witness :
let q := ["cache"; "p"; "n"; "k"; "z"] in
Store ex_key ex_outDir ex_cache (ex_target ["z"]) "k" ex_fs q <> ex_fs q /\
((exists s, q = getPath ex_key ex_cache (ex_target ["z"]) "k" ++ s) \/
 (q <> [] /\ (exists s, getPath ex_key ex_cache (ex_target ["z"]) "k" = q ++ s) /\
  Store ex_key ex_outDir ex_cache (ex_target ["z"]) "k" ex_fs q = Some NDir)).
Proof.
intros q. split.
- vm_compute. discriminate.
- apply (Store_writes_only_key_dir ex_key ex_outDir ex_cache (ex_target ["z"]) "k" ex_fs q).
  + apply (bool_decide_unpack _). vm_compute. reflexivity.
  + assert (cacheArtifacts (ex_target ["z"]) = [["z"]]) as -> by reflexivity.
    intros out ->%list_elem_of_singleton. apply (bool_decide_unpack _). vm_compute. reflexivity.
  + vm_compute. discriminate.
Defined.

(** Retrieving into a cleared out-dir writes [out/z] back and leaves the
  stored copy [cache/p/n/k/z] as it is. *)
Lemma Retrieve_writes_only_outputs_witness :
let fs := RemoveAll ["out"] (Store ex_key ex_outDir ex_cache (ex_target ["z"]) "k" ex_fs) in
let q := ["out"; "z"] in
snd (Retrieve ex_key ex_outDir ex_cache (ex_target ["z"]) "k" fs) q <> fs q /\
(exists out, out ∈ cacheArtifacts (ex_target ["z"]) /\
  ((exists s, q = ex_outDir (ex_target ["z"]) ++ out ++ s) \/
   (q <> [] /\ (exists s, ex_outDir (ex_target ["z"]) ++ out = q ++ s) /\
    snd (Retrieve ex_key ex_outDir ex_cache (ex_target ["z"]) "k" fs) q = Some NDir))) /\
snd (Retrieve ex_key ex_outDir ex_cache (ex_target ["z"]) "k" fs)
  (CacheDir ex_cache ++ ["p"; "n"; "k"; "z"]) = fs (CacheDir ex_cache ++ ["p"; "n"; "k"; "z"]).
Proof.
intros fs q.
destruct (Retrieve_writes_only_outputs ex_key ex_outDir ex_cache (ex_target ["z"]) "k" fs)
  as [Hw Hc].
- apply (bool_decide_unpack _). vm_compute. reflexivity.
- assert (cacheArtifacts (ex_target ["z"]) = [["z"]]) as -> by reflexivity.
  intros out ->%list_elem_of_singleton. apply (bool_decide_unpack _). vm_compute. reflexivity.
- split; [vm_compute; discriminate|]. split.
  + apply Hw. vm_compute. discriminate.
  + apply Hc. intros x y [=].
Defined.

(** Cleaning [//a:b] also drops the entries of [//a/b:c]. *)
Lemma Clean_then_Retrieve_misses_witness :
Retrieve ex_key ex_outDir ex_cache (NewBuildTarget (mkLabel "a/b" "c")) "k"
  (Clean ex_cache (NewBuildTarget (mkLabel "a" "b")) ex_fs)
= (false, Clean ex_cache (NewBuildTarget (mkLabel "a" "b")) ex_fs).
Proof.
apply (Clean_then_Retrieve_misses ex_key ex_outDir ex_cache
  (NewBuildTarget (mkLabel "a" "b")) ex_fs).
exists ["c"; "k"]. reflexivity.
Defined.

(** A relative setting under the absolute root [/repo]. *)
Lemma newDirCache_Dir_absolute_witness :
newDirCache_Dir "/repo" "cache" = Ok "/repo/cache" /\ HasPrefix "/repo/cache" "/" = true.
Proof.
split; [reflexivity|].
apply (proj2 (proj2 (newDirCache_Dir_absolute "/repo" "cache")) "/repo/cache");
  reflexivity.
Defined.
End CacheFrameExamples.

(** ** Extra properties of the interpreter callbacks *)
Module StringFacts.
Import GoStrings.

Lemma prefix_nil (s : string) : String.prefix "" s = true.
Proof. by destruct s. Qed.

Lemma HasPrefix_app (p r : string) : HasPrefix (p +:+ r) p = true.
Proof.
unfold HasPrefix. induction p as [|a p IH]; [apply prefix_nil|].
change (String a p +:+ r) with (String a (p +:+ r)). cbn -[Ascii.ascii_dec]. destruct (Ascii.ascii_dec a a); [exact IH|done].
Qed.

Lemma HasPrefix_inv (m p : string) : HasPrefix m p = true -> exists r, m = p +:+ r.
Proof.
unfold HasPrefix. revert m. induction p as [|a p IH]; intros m H; [by exists m|].
destruct m as [|b m]; [discriminate|]. cbn -[Ascii.ascii_dec] in H.
destruct (Ascii.ascii_dec a b) as [<-|]; [|discriminate].
destruct (IH m H) as [r ->]. by exists r.
Qed.

Lemma append_cons (a : ascii) (p r : string) : String a p +:+ r = String a (p +:+ r).
Proof. reflexivity. Qed.

Lemma append_nil_r (p : string) : p +:+ EmptyString = p.
Proof. induction p as [|a p IH]; [done|]. rewrite append_cons. f_equal. exact IH. Qed.

Lemma length_app (p r : string) : String.length (p +:+ r) = String.length p + String.length r.
Proof. induction p as [|a p IH]; [done|]. rewrite append_cons. simpl. by rewrite IH. Qed.

Lemma substring_0_all (s : string) (n : nat) : String.length s <= n -> String.substring 0 n s = s.
Proof.
revert n. induction s as [|a s IH]; intros n Hn; [by destruct n|].
destruct n as [|n]; simpl in Hn; [lia|]. simpl. rewrite IH; [done|lia].
Qed.

Lemma substring_skip (p r : string) (k n : nat) :
  String.substring (String.length p + k) n (p +:+ r) = String.substring k n r.
Proof. induction p as [|a p IH]; [done|]. rewrite append_cons. simpl. exact IH. Qed.
End StringFacts.

Section IsPackageExtras.
Import Interp InterpMore.
Variable FileExists : string -> bool.
Variable buildFileNames : list string.

Lemma isPackage_memo_ok (memo : gmap string bool) (n : string) :
  memo_ok FileExists buildFileNames memo ->
  fst (isPackage_memo FileExists buildFileNames memo n) = isPackage FileExists buildFileNames n /\
  memo_ok FileExists buildFileNames (snd (isPackage_memo FileExists buildFileNames memo n)).
Proof.
intros Hm. unfold isPackage_memo. destruct (memo !! n) as [r|] eqn:E; simpl.
- split; [by apply Hm|done].
- split; [done|]. intros n' r'. rewrite lookup_insert.
  case_decide as Hn; [intros [= <-]; by subst n'|apply Hm].
Qed.
End IsPackageExtras.

Section IsPackageClaims.
Import Interp InterpMore.

(** [isPackage]'s memo table never changes an answer: starting from a
  table that agrees with [isPackageInternal] (the empty one does), any
  sequence of calls returns what [isPackageInternal] returns for each
  name, and the table still agrees with it afterwards. *)
Theorem isPackage_memo_transparent (FileExists : string -> bool)
  (buildFileNames : list string) (memo : gmap string bool) (names : list string) :
memo_ok FileExists buildFileNames memo ->
fst (isPackage_calls FileExists buildFileNames memo names) =
  map (isPackage FileExists buildFileNames) names /\
memo_ok FileExists buildFileNames (snd (isPackage_calls FileExists buildFileNames memo names)).
Proof.
revert memo. induction names as [|n ns IH]; intros memo Hm; simpl; [done|].
pose proof (isPackage_memo_ok FileExists buildFileNames memo n Hm) as [H1 H2].
destruct (isPackage_memo FileExists buildFileNames memo n) as [r memo1]; simpl in *.
specialize (IH memo1 H2).
destruct (isPackage_calls FileExists buildFileNames memo1 ns) as [rs memo2]; simpl in *.
destruct IH as [-> ?]. by subst r.
Qed.
End IsPackageClaims.

Section IncludeClaims.
Import Interp InterpMore StringFacts.

Lemma trim_left_slash_spec (s : string) :
  exists k, s = slashes k +:+ trim_left_slash s /\ HasPrefix (trim_left_slash s) "/" = false.
Proof.
induction s as [|c s IH]; [by exists 0|]. simpl.
case_bool_decide as Hc.
- destruct IH as [k [Hk Hp]]. exists (S k). subst c. split; [|done].
  change (slashes (S k) +:+ trim_left_slash s) with (String "/" (slashes k +:+ trim_left_slash s)).
  by rewrite <- Hk.
- exists 0. split; [done|]. unfold HasPrefix. cbn -[Ascii.ascii_dec].
  destruct (Ascii.ascii_dec "/" c); [by subst|done].
Qed.

Lemma HasPrefix_two_slashes (s : string) :
  HasPrefix s "//" = true -> exists r, s = String "/" (String "/" r).
Proof.
intros H. destruct (HasPrefix_inv s "//" H) as [r ->]. by exists r.
Qed.

(** [GetIncludeFile] panics exactly on a label that does not start with
  [//]. Otherwise the label is [k >= 2] slashes followed by a path [rel]
  that does not start with a slash; the file returned is [rel] joined to
  the repository root, and [rel] is what is registered as the package's
  subinclude. *)
Theorem GetIncludeFile_result (RegisterSubinclude : World -> string -> string -> World)
  (RepoRoot : string) (w : World) (pkg label : string) :
(GetIncludeFile RegisterSubinclude RepoRoot w pkg label = None <->
 HasPrefix label "//" = false) /\
(HasPrefix label "//" = true ->
 exists k rel, 2 <= k /\ label = slashes k +:+ rel /\ HasPrefix rel "/" = false /\
   GetIncludeFile RegisterSubinclude RepoRoot w pkg label =
   Some (Join RepoRoot rel, RegisterSubinclude w pkg rel)).
Proof.
unfold GetIncludeFile. split.
- destruct (HasPrefix label "//"); simpl; split; done.
- intros H. rewrite H. simpl.
  destruct (HasPrefix_two_slashes label H) as [r ->].
  destruct (trim_left_slash_spec r) as [k [Hk Hp]].
  assert (E : trim_left_slash (String "/" (String "/" r)) = trim_left_slash r) by reflexivity.
  rewrite E. exists (S (S k)), (trim_left_slash r). split; [lia|]. split.
  + change (slashes (S (S k)) +:+ trim_left_slash r)
      with (String "/" (String "/" (slashes k +:+ trim_left_slash r))).
    by rewrite <- Hk.
  + split; [exact Hp|]. done.
Qed.
End IncludeClaims.

Section IncludeExamples.
Import Interp InterpMore ParseFixtures.

(** [///defs/x.build_defs] reads [defs/x.build_defs] below the root. *)
Lemma GetIncludeFile_result_witness :
exists k rel, 2 <= k /\ "///defs/x.build_defs" = slashes k +:+ rel /\
  HasPrefix rel "/" = false /\
  GetIncludeFile (fun w _ _ => w) "/repo" (ex_world [] [] []) "p" "///defs/x.build_defs" =
  Some (Join "/repo" rel, ex_world [] [] []).
Proof.
apply (proj2 (GetIncludeFile_result (fun w _ _ => w) "/repo" (ex_world [] [] []) "p"
  "///defs/x.build_defs")).
reflexivity.
Defined.
End IncludeExamples.

Section ContainerSettingClaims.
Import InterpMore StringFacts.

Lemma HasPrefix_char (c d : ascii) (s : string) :
  HasPrefix (String c s) (String d EmptyString) = bool_decide (c = d).
Proof.
unfold HasPrefix. cbn -[Ascii.ascii_dec]. rewrite prefix_nil.
destruct (Ascii.ascii_dec d c); case_bool_decide; congruence.
Qed.

Lemma replace_underscore_go (n : nat) (s : string) :
  String.length s <= n ->
  GlobModel.replace_go n "_" "" s =
  String.string_of_list_ascii
    (List.filter (fun c => negb (bool_decide (c = "_"%char))) (String.list_ascii_of_string s)).
Proof.
revert n. induction s as [|c s IH]; intros n Hn; [by destruct n|].
destruct n as [|n]; simpl in Hn; [lia|].
change (GlobModel.replace_go (S n) "_" "" (String c s)) with
  (if HasPrefix (String c s) "_"
   then "" +:+ GlobModel.replace_go n "_" ""
          (String.substring 1 (S (String.length s)) (String c s))
   else String c (GlobModel.replace_go n "_" "" s)).
rewrite HasPrefix_char. cbn [String.list_ascii_of_string List.filter].
case_bool_decide as Hc.
- cbn [negb].
  change (String.substring 1 (S (String.length s)) (String c s))
    with (String.substring 0 (S (String.length s)) s).
  rewrite substring_0_all by lia. cbn [String.append]. apply IH; lia.
- cbn [negb String.string_of_list_ascii].
  rewrite IH by lia. done.
Qed.

(** [SetContainerSetting] passes on the setting name with every
  underscore removed and every other character kept in order. *)
Theorem container_setting_name_drops_underscores (name : string) :
container_setting_name name =
String.string_of_list_ascii
  (List.filter (fun c => negb (bool_decide (c = "_"%char))) (String.list_ascii_of_string name)).
Proof. unfold container_setting_name, GlobModel.Replace. by apply replace_underscore_go. Qed.
End ContainerSettingClaims.

Module GlobFacts.
Import GoStrings GoPath Interp GlobModel StringFacts.

Lemma glob_keep_sound (Match : string -> string -> option bool) (pkg : string)
  (excs : list string) (ih : bool) (m x : string) (ys : list string) :
  glob_keep Match pkg excs ih m = Ok ys -> x ∈ ys ->
  shouldExcludeMatch Match m pkg excs = Ok false /\
  (ih = false -> (HasPrefix (snd (Split m)) "." ||
                  (HasPrefix (snd (Split m)) "#" && HasSuffix (snd (Split m)) "#")) = false) /\
  ((HasPrefix m pkg = false /\ x = m) \/ exists c, m = pkg +:+ String c x).
Proof.
unfold glob_keep.
destruct (negb ih && _) eqn:Eh.
{ intros [= <-] Hx. by apply not_elem_of_nil in Hx. }
destruct (shouldExcludeMatch Match m pkg excs) as [[]|e] eqn:Ex; simpl; [| |discriminate].
{ intros [= <-] Hx. by apply not_elem_of_nil in Hx. }
assert (Hh : ih = false -> (HasPrefix (snd (Split m)) "." ||
           (HasPrefix (snd (Split m)) "#" && HasSuffix (snd (Split m)) "#")) = false).
{ intros ->. exact Eh. }
destruct (HasPrefix m pkg) eqn:Ep.
- destruct (String.length m <? S (String.length pkg)) eqn:El; [discriminate|].
  intros [= <-] ->%list_elem_of_singleton. split; [done|]. split; [exact Hh|]. right.
  apply Nat.ltb_ge in El. destruct (HasPrefix_inv m pkg Ep) as [r ->].
  rewrite length_app in El. destruct r as [|c r]; [simpl in El; lia|].
  exists c. f_equal. f_equal.
  replace (S (String.length pkg)) with (String.length pkg + 1) by lia.
  rewrite substring_skip. simpl. rewrite substring_0_all; [done|].
  rewrite length_app. simpl. lia.
- intros [= <-] ->%list_elem_of_singleton. split; [done|]. split; [exact Hh|]. by left.
Qed.

Lemma glob_keep_all_sound (Match : string -> string -> option bool) (pkg : string)
  (excs : list string) (ih : bool) (ms ys : list string) (x : string) :
  glob_keep_all Match pkg excs ih ms = Ok ys -> x ∈ ys ->
  exists m ys', m ∈ ms /\ glob_keep Match pkg excs ih m = Ok ys' /\ x ∈ ys'.
Proof.
revert ys. induction ms as [|m ms IH]; intros ys; simpl.
- intros [= <-] Hx. by apply not_elem_of_nil in Hx.
- destruct (glob_keep Match pkg excs ih m) as [a|e] eqn:Ea; simpl; [|discriminate].
  destruct (glob_keep_all Match pkg excs ih ms) as [b|e] eqn:Eb; simpl; [|discriminate].
  intros [= <-] [Hx|Hx]%elem_of_app.
  + exists m, a. split; [apply elem_of_cons; by left|done].
  + destruct (IH b eq_refl Hx) as (m' & ys' & Hm & Hk & Hy).
    exists m', ys'. split; [apply elem_of_cons; by right|done].
Qed.
End GlobFacts.

Section GlobExtras.
Import GoStrings GoPath Interp GlobModel StringFacts GlobFacts.
Variable root : list entry.
Variable buildFileNames : list string.
Variable regexCompile : string -> option (string -> bool).
Variable globMeta : string -> option (list string).
Variable Match : string -> string -> option bool.

(** [Glob] over two include lists one after the other is [Glob] over the
  first, then over the second, with the results concatenated; an error of
  either fails the whole call. *)
Theorem Glob_app (pkg : string) (i1 i2 excs : list string) (ih : bool) :
Glob root buildFileNames regexCompile globMeta Match pkg (i1 ++ i2) excs ih =
(let! a := Glob root buildFileNames regexCompile globMeta Match pkg i1 excs ih in
 let! b := Glob root buildFileNames regexCompile globMeta Match pkg i2 excs ih in
 Ok (a ++ b)).
Proof.
induction i1 as [|inc i1 IH]; simpl.
- by destruct (Glob root buildFileNames regexCompile globMeta Match pkg i2 excs ih).
- destruct (glob root buildFileNames regexCompile globMeta pkg inc) as [ms|]; [|done].
  destruct (glob_keep_all Match pkg excs ih ms) as [a|e]; simpl; [|done].
  rewrite IH.
  destruct (Glob root buildFileNames regexCompile globMeta Match pkg i1 excs ih) as [b|e];
    simpl; [|done].
  destruct (Glob root buildFileNames regexCompile globMeta Match pkg i2 excs ih) as [c|e];
    simpl; [|done].
  by rewrite app_assoc.
Qed.

(** Every name [Glob] returns comes from a match [m] of one of the include
  patterns that no exclude pattern matches and, unless hidden files are
  asked for, whose base name is neither hidden ([.x]) nor temporary
  ([#x#]). The name is [m] itself when [m] does not start with the package
  name, and otherwise [m] with the package name and one more character
  cut off. *)
Theorem Glob_result_sound (pkg : string) (incs excs : list string) (ih : bool)
  (xs : list string) (x : string) :
Glob root buildFileNames regexCompile globMeta Match pkg incs excs ih = Ok xs -> x ∈ xs ->
exists inc ms m, inc ∈ incs /\
  glob root buildFileNames regexCompile globMeta pkg inc = Some ms /\ m ∈ ms /\
  shouldExcludeMatch Match m pkg excs = Ok false /\
  (ih = false -> (HasPrefix (snd (Split m)) "." ||
                  (HasPrefix (snd (Split m)) "#" && HasSuffix (snd (Split m)) "#")) = false) /\
  ((HasPrefix m pkg = false /\ x = m) \/ exists c, m = pkg +:+ String c x).
Proof.
revert xs. induction incs as [|inc incs IH]; intros xs; simpl.
- intros [= <-] Hx. by apply not_elem_of_nil in Hx.
- destruct (glob root buildFileNames regexCompile globMeta pkg inc) as [ms|] eqn:Eg;
    [|discriminate].
  destruct (glob_keep_all Match pkg excs ih ms) as [a|e] eqn:Ea; simpl; [|discriminate].
  destruct (Glob root buildFileNames regexCompile globMeta Match pkg incs excs ih) as [b|e]
    eqn:Eb; simpl; [|discriminate].
  intros [= <-] [Hx|Hx]%elem_of_app.
  + destruct (glob_keep_all_sound Match pkg excs ih ms a x Ea Hx) as (m & ys & Hm & Hk & Hy).
    exists inc, ms, m. split; [apply elem_of_cons; by left|].
    split; [done|]. split; [done|]. exact (glob_keep_sound Match pkg excs ih m x ys Hk Hy).
  + destruct (IH b eq_refl Hx) as (inc' & ms' & m & Hi & Hrest).
    exists inc', ms', m. split; [apply elem_of_cons; by right|exact Hrest].
Qed.
End GlobExtras.

Section GlobKeepExtras.
Import GoStrings GoPath Interp GlobModel StringFacts.

(** For a match that is kept (not hidden or temporary unless asked for,
  not excluded), [Glob] cuts the package name and the next character off
  whenever the match starts with the package name, whatever that
  character is: in package [p] the match [pq.txt] gives [.txt], and in
  the root package [""] every match loses its first character. A match
  equal to the package name is Go's index-out-of-range panic; a match not
  starting with the package name is kept whole. *)
Theorem glob_keep_prefix_strip (Match : string -> string -> option bool) (pkg : string)
  (excs : list string) (ih : bool) (m : string) :
(ih = false -> (HasPrefix (snd (Split m)) "." ||
                (HasPrefix (snd (Split m)) "#" && HasSuffix (snd (Split m)) "#")) = false) ->
shouldExcludeMatch Match m pkg excs = Ok false ->
(forall c r, m = pkg +:+ String c r -> glob_keep Match pkg excs ih m = Ok [r]) /\
(m = pkg -> glob_keep Match pkg excs ih m = Panic IndexOutOfRange) /\
(HasPrefix m pkg = false -> glob_keep Match pkg excs ih m = Ok [m]).
Proof.
intros Hh Hx. unfold glob_keep.
assert (E : negb ih && (HasPrefix (snd (Split m)) "." ||
           (HasPrefix (snd (Split m)) "#" && HasSuffix (snd (Split m)) "#")) = false).
{ destruct ih; [done|]. by rewrite Hh. }
rewrite E, Hx. simpl. split; [|split].
- intros c r ->. rewrite HasPrefix_app.
  rewrite length_app. simpl.
  replace (String.length pkg + S (String.length r) <? S (String.length pkg)) with false
    by (symmetry; apply Nat.ltb_ge; lia).
  f_equal. f_equal.
  replace (S (String.length pkg)) with (String.length pkg + 1) by lia.
  rewrite substring_skip. simpl. rewrite substring_0_all; [done|lia].
- intros ->. rewrite <- (append_nil_r pkg) at 1.
  rewrite HasPrefix_app.
  replace (String.length pkg <? S (String.length pkg)) with true
    by (symmetry; apply Nat.ltb_lt; lia).
  done.
- by intros ->.
Qed.

(** [shouldExcludeMatch] tries the exclude patterns in order: it fails
  exactly when some pattern is malformed and every pattern before it
  fails to match, it fails with no other error, and when it answers, the
  answer is whether some exclude pattern matches. *)
Theorem shouldExcludeMatch_spec (Match : string -> string -> option bool)
  (m pkg : string) (excs : list string) :
(shouldExcludeMatch Match m pkg excs = Panic GlobError <->
 exists pre e post, excs = pre ++ e :: post /\ Match (Join pkg e) m = None /\
   Forall (fun e' => Match (Join pkg e') m = Some false) pre) /\
(forall err, shouldExcludeMatch Match m pkg excs = Panic err -> err = GlobError) /\
(forall b, shouldExcludeMatch Match m pkg excs = Ok b ->
 b = existsb (fun e => bool_decide (Match (Join pkg e) m = Some true)) excs).
Proof.
split; [split|split].
- induction excs as [|e excs IH]; simpl; [discriminate|].
  destruct (Match (Join pkg e) m) as [[]|] eqn:E; [discriminate| |].
  + intros H. destruct (IH H) as (pre & e' & post & -> & He & Hf).
    exists (e :: pre), e', post. split; [done|]. split; [done|]. by constructor.
  + intros _. by exists [], e, excs.
- intros (pre & e & post & -> & He & Hf). induction pre as [|e' pre IH]; simpl.
  + by rewrite He.
  + inversion Hf as [|? ? He' Hf']; subst. rewrite He'. by apply IH.
- intros err. induction excs as [|e excs IH]; simpl; [discriminate|].
  destruct (Match (Join pkg e) m) as [[]|]; [discriminate|exact IH|by intros [= <-]].
- intros b. induction excs as [|e excs IH]; simpl; [by intros [= <-]|].
  destruct (Match (Join pkg e) m) as [[]|]; [by intros [= <-]| |discriminate].
  intros H. rewrite (IH H). done.
Qed.
End GlobKeepExtras.

Section GlobExamples.
Import GoStrings GoPath Interp GlobModel ParseFixtures.

(** Globbing [a.go] in package [p] gives [a.go]. *)
Lemma Glob_result_sound_witness :
Glob ex_tree ["BUILD"] ex_regex ex_globmeta ex_match "p" ["a.go"] [] false = Ok ["a.go"] /\
exists inc ms m, inc ∈ ["a.go"] /\
  glob ex_tree ["BUILD"] ex_regex ex_globmeta "p" inc = Some ms /\ m ∈ ms /\
  shouldExcludeMatch ex_match m "p" [] = Ok false /\
  (false = false -> (HasPrefix (snd (Split m)) "." ||
                  (HasPrefix (snd (Split m)) "#" && HasSuffix (snd (Split m)) "#")) = false) /\
  ((HasPrefix m "p" = false /\ "a.go" = m) \/ exists c, m = "p" +:+ String c "a.go").
Proof.
split; [vm_compute; reflexivity|].
apply (Glob_result_sound ex_tree ["BUILD"] ex_regex ex_globmeta ex_match "p" ["a.go"] [] false
  ["a.go"] "a.go").
- vm_compute. reflexivity.
- apply elem_of_cons. by left.
Defined.

(** In package [p], the match [pq.txt] is returned as [.txt]. *)
Lemma glob_keep_prefix_strip_witness :
glob_keep ex_match "p" [] false "pq.txt" = Ok [".txt"].
Proof.
apply (proj1 (glob_keep_prefix_strip ex_match "p" [] false "pq.txt" ltac:(vm_compute; reflexivity)
  ltac:(vm_compute; reflexivity)) "q"%char ".txt").
reflexivity.
Defined.
End GlobExamples.

Section SourceExtras.
Import Interp.

Lemma parseSource_label (ParseBuildFileLabel : string -> string -> option (BuildLabel * string))
  (FileExists : string -> bool) (buildFileNames : list string) (s pkg : string) :
  LooksLikeABuildLabel s = true ->
  (ParseBuildFileLabel s pkg = None ->
     parseSource ParseBuildFileLabel FileExists buildFileNames s pkg = Panic InvalidLabel) /\
  forall l f, ParseBuildFileLabel s pkg = Some (l, f) ->
  exists i, parseSource ParseBuildFileLabel FileExists buildFileNames s pkg = Ok i /\
    input_label i = Some l.
Proof.
intros H. unfold parseSource. rewrite H. split.
- intros Hp. rewrite Hp. reflexivity.
- intros l f Hp. rewrite Hp. simpl.
  case_bool_decide; eexists; split; reflexivity.
Qed.

(** A source, named source or data item that looks like a build label
  ([//...] or [:...]) and that [core.ParseBuildFileLabel] parses,
  relative to the target's package, is accepted whatever the filesystem
  holds: [AddSource], [AddNamedSource] and [AddData] append the parsed
  input to their list and add its label as a declared dependency of the
  target. When the parser rejects it, all three fail with its panic. *)
Theorem label_inputs_add_dependency
  (ParseBuildFileLabel : string -> string -> option (BuildLabel * string))
  (FileExists : string -> bool) (buildFileNames : list string)
  (t : BuildTarget) (ins : Inputs) (name s : string) :
LooksLikeABuildLabel s = true ->
(ParseBuildFileLabel s (PackageName (Label t)) = None ->
   AddSource ParseBuildFileLabel FileExists buildFileNames t ins s = Panic InvalidLabel /\
   AddNamedSource ParseBuildFileLabel FileExists buildFileNames t ins name s
     = Panic InvalidLabel /\
   AddData ParseBuildFileLabel FileExists buildFileNames t ins s = Panic InvalidLabel) /\
forall l f, ParseBuildFileLabel s (PackageName (Label t)) = Some (l, f) ->
(exists i, input_label i = Some l /\
   AddSource ParseBuildFileLabel FileExists buildFileNames t ins s =
   Ok (AddDependency t l, mkInputs (Sources ins ++ [i]) (NamedSources ins) (Data ins))) /\
(exists i, input_label i = Some l /\
   AddNamedSource ParseBuildFileLabel FileExists buildFileNames t ins name s =
   Ok (AddDependency t l, mkInputs (Sources ins) (NamedSources ins ++ [(name, i)]) (Data ins))) /\
(exists i, input_label i = Some l /\
   AddData ParseBuildFileLabel FileExists buildFileNames t ins s =
   Ok (AddDependency t l, mkInputs (Sources ins) (NamedSources ins) (Data ins ++ [i]))).
Proof.
intros H.
destruct (parseSource_label ParseBuildFileLabel FileExists buildFileNames s
  (PackageName (Label t)) H) as [Hn Hs].
unfold AddSource, AddNamedSource, AddData. split.
- intros Hp. rewrite (Hn Hp). done.
- intros l f Hp. destruct (Hs l f Hp) as (i & Hi & Hl). rewrite Hi. simpl. rewrite Hl.
  split; [|split]; exists i; done.
Qed.
End SourceExtras.

Module AddTargetFacts.
Import Interp InterpFacts.

Lemma addTarget_Ok_inv (w : World) (pkg name cmd testCmd : string)
  (binary test ntd oic cont nto skip tonly : bool) (flak bt tt : Z) (desc : string)
  (w' : World) (l : BuildLabel) :
addTarget w pkg name cmd testCmd binary test ntd oic cont nto skip tonly flak bt tt desc =
  Ok (w', l) ->
let t0 := set_flags (NewBuildTarget (mkLabel (PkgName (pkg_obj w pkg)) name)) binary test
            ntd oic cont nto skip tonly flak bt tt in
let t1 := if cont then AddLabel t0 "container" else t0 in
let t2 := if bool_decide (desc <> "") then set_BuildingDescription t1 desc else t1 in
let t3 := if binary then AddLabel t2 "bin" else t2 in
let T := set_TestCommand (set_Command t3 cmd) testCmd in
Packages w' = Packages (set_target w pkg name T) /\ l = Label T.
Proof.
unfold addTarget. cbv zeta.
destruct (bool_decide (is_Some _)); [discriminate|].
destruct (bool_decide _ && _); [discriminate|].
destruct (_ && _); [discriminate|].
destruct (graph_Package _ _).
- unfold graph_AddTarget. destruct (bool_decide _); [discriminate|].
  simpl. by intros [= <- <-].
- by intros [= <- <-].
Qed.

Lemma addTarget_stored (w : World) (pkg name cmd testCmd : string)
  (binary test ntd oic cont nto skip tonly : bool) (flak bt tt : Z) (desc : string)
  (w' : World) (l : BuildLabel) :
addTarget w pkg name cmd testCmd binary test ntd oic cont nto skip tonly flak bt tt desc =
  Ok (w', l) ->
let t0 := set_flags (NewBuildTarget (mkLabel (PkgName (pkg_obj w pkg)) name)) binary test
            ntd oic cont nto skip tonly flak bt tt in
let t1 := if cont then AddLabel t0 "container" else t0 in
let t2 := if bool_decide (desc <> "") then set_BuildingDescription t1 desc else t1 in
let t3 := if binary then AddLabel t2 "bin" else t2 in
let T := set_TestCommand (set_Command t3 cmd) testCmd in
pkg_obj w' pkg = pkg_obj (set_target w pkg name T) pkg /\
Targets (pkg_obj w' pkg) !! name = Some T /\ l = Label T.
Proof.
intros H t0 t1 t2 t3 T.
pose proof (addTarget_Ok_inv _ _ _ _ _ _ _ _ _ _ _ _ _ _ _ _ _ _ _ H) as HH.
cbv zeta in HH. destruct HH as [HP HL].
assert (E : pkg_obj w' pkg = pkg_obj (set_target w pkg name T) pkg).
{ unfold pkg_obj. rewrite HP. reflexivity. }
split; [exact E|]. split; [|exact HL].
rewrite E. apply targets_set_target_same.
Qed.
End AddTargetFacts.

Section AddTargetExtras.
Import Interp InterpFacts AddTargetFacts.

(** A target [addTarget] creates is stored under its name with the labels
  [container] (for a containerised target) and then [bin] (for a binary),
  the building description it is given (when not empty), the given flags
  and timeouts, and no outputs, dependencies or licences yet. *)
Theorem addTarget_stored_fields (w : World) (pkg name cmd testCmd : string)
  (binary test ntd oic cont nto skip tonly : bool) (flak bt tt : Z) (desc : string)
  (w' : World) (l : BuildLabel) :
addTarget w pkg name cmd testCmd binary test ntd oic cont nto skip tonly flak bt tt desc =
  Ok (w', l) ->
exists t, Targets (pkg_obj w' pkg) !! name = Some t /\ Label t = l /\
  Labels t = (if cont then ["container"] else []) ++ (if binary then ["bin"] else []) /\
  (desc <> "" -> BuildingDescription t = desc) /\
  NeedsTransitiveDependencies t = ntd /\ OutputIsComplete t = oic /\ Containerise t = cont /\
  NoTestOutput t = nto /\ SkipCache t = skip /\ TestOnly t = tonly /\
  Flakiness t = flak /\ BuildTimeout t = bt /\ TestTimeout t = tt /\
  Outputs t = [] /\ DeclaredDependencies t = [] /\ ExportedDependencies t = [] /\
  Licences t = [] /\ Dependencies t = [].
Proof.
intros H. destruct (addTarget_stored _ _ _ _ _ _ _ _ _ _ _ _ _ _ _ _ _ _ _ H) as (_ & Hs & Hl).
eexists. split; [exact Hs|]. split; [done|].
destruct (decide (desc = "")) as [->|Hd];
  [rewrite bool_decide_false by (intros Hne; apply Hne; reflexivity)
  |rewrite bool_decide_true by exact Hd];
  destruct cont, binary; repeat split; try reflexivity; intros Hne;
  solve [reflexivity | exfalso; apply Hne; reflexivity].
Qed.

(** Right after [addTarget], the post-build callbacks accept the new
  target: [SetCommand] and [AddLicencePost] on it succeed, so does
  [AddDependencyPost] for a dependency [core.ParseBuildFileLabel]
  parses, and so does [AddOutputPost] for a file no target of the
  package has claimed. *)
Theorem addTarget_then_post_build (w : World) (pkg name cmd testCmd : string)
  (binary test ntd oic cont nto skip tonly : bool) (flak bt tt : Z) (desc : string)
  (w' : World) (l : BuildLabel) :
addTarget w pkg name cmd testCmd binary test ntd oic cont nto skip tonly flak bt tt desc =
  Ok (w', l) ->
(forall c, exists w'', SetCommand w' pkg name c = Ok w'') /\
(forall lic, exists w'', AddLicencePost w' pkg name lic = Ok w'') /\
(forall (ParseBuildFileLabel : string -> string -> option (BuildLabel * string))
   cDep exported depf,
   ParseBuildFileLabel cDep (PackageName l) = Some depf ->
   exists w'', AddDependencyPost ParseBuildFileLabel w' pkg name cDep exported = Ok w'') /\
(forall out, PkgOutputs (pkg_obj w' pkg) !! out = None ->
   exists w'', AddOutputPost w' pkg name out = Ok w'').
Proof.
intros H. destruct (addTarget_stored _ _ _ _ _ _ _ _ _ _ _ _ _ _ _ _ _ _ _ H) as (_ & Hs & Hl).
match type of Hs with _ = Some ?T => set (T0 := T) in Hs, Hl end.
assert (HG : getTargetPost w' pkg name = Ok T0).
{ apply getTargetPost_Ok. split; [exact Hs|].
  unfold T0. destruct cont, binary, (bool_decide (desc <> "")); reflexivity. }
unfold SetCommand, AddLicencePost, AddDependencyPost, AddOutputPost. rewrite HG.
cbn [rbind]. split; [|split; [|split]].
- intros c. by eexists.
- intros lic. by eexists.
- intros PBFL cDep exported depf Hp. rewrite <- Hl, Hp. cbn [parsed rbind]. by eexists.
- intros out Ho. unfold RegisterOutput. rewrite Ho. simpl. by eexists.
Qed.
End AddTargetExtras.

Section AddTargetExtraExamples.
Import Interp ParseFixtures.

(** A containerised binary [t] added to the empty package [p]. *)
Lemma addTarget_stored_fields_witness :
exists w' l, addTarget (ex_world [] ["p"] []) "p" "t" "echo" "" true false false false
  true false false false 0 0 0 "Compiling t" = Ok (w', l) /\
exists t, Targets (pkg_obj w' "p") !! "t" = Some t /\ Label t = l /\
  Labels t = ["container"; "bin"] /\
  ("Compiling t" <> "" -> BuildingDescription t = "Compiling t") /\
  NeedsTransitiveDependencies t = false /\ OutputIsComplete t = false /\
  Containerise t = true /\ NoTestOutput t = false /\ SkipCache t = false /\
  TestOnly t = false /\ Flakiness t = 0%Z /\ BuildTimeout t = 0%Z /\ TestTimeout t = 0%Z /\
  Outputs t = [] /\ DeclaredDependencies t = [] /\ ExportedDependencies t = [] /\
  Licences t = [] /\ Dependencies t = [].
Proof.
destruct (addTarget (ex_world [] ["p"] []) "p" "t" "echo" "" true false false
  false true false false false 0 0 0 "Compiling t") as [[w' l]|e] eqn:E;
  [|vm_compute in E; discriminate].
exists w', l. split; [reflexivity|].
exact (addTarget_stored_fields (ex_world [] ["p"] []) "p" "t" "echo" "" true false false
  false true false false false 0 0 0 "Compiling t" w' l E).
Defined.

(** After adding [t] to [p], the output [o] can be registered for it. *)
Lemma addTarget_then_post_build_witness :
exists w' l, addTarget (ex_world [] ["p"] []) "p" "t" "echo" "" false false false false
  false false false false 0 0 0 "" = Ok (w', l) /\
exists w'', AddOutputPost w' "p" "t" "o" = Ok w''.
Proof.
destruct (addTarget (ex_world [] ["p"] []) "p" "t" "echo" "" false false false
  false false false false false 0 0 0 "") as [[w' l]|e] eqn:E;
  [|vm_compute in E; discriminate].
exists w', l. split; [reflexivity|].
apply (addTarget_then_post_build (ex_world [] ["p"] []) "p" "t" "echo" "" false false false
  false false false false false 0 0 0 "" w' l E).
pose proof (AddTargetFacts.addTarget_Ok_inv _ _ _ _ _ _ _ _ _ _ _ _ _ _ _ _ _ _ _ E) as [HP _].
unfold pkg_obj. rewrite HP. vm_compute. reflexivity.
Defined.
End AddTargetExtraExamples.

Section MoreExamples.
Import Interp InterpMore ParseFixtures.

(** Two lookups of [x] and one of [y], from an empty memo table. *)
Lemma isPackage_memo_transparent_witness :
fst (isPackage_calls ex_exists ["BUILD"] ∅ ["x"; "y"; "x"]) = [true; false; true].
Proof.
rewrite (proj1 (isPackage_memo_transparent ex_exists ["BUILD"] ∅ ["x"; "y"; "x"]
  ltac:(intros n r; rewrite lookup_empty; discriminate))).
reflexivity.
Defined.

(** The label [//:x] is a source that adds the dependency [//:x]. *)
Lemma label_inputs_add_dependency_witness :
exists i, input_label i = Some (mkLabel "p" "//:x") /\
  AddSource ex_pbfl ex_exists ["BUILD"] (ex_tgt "t" Inactive [] [] []) (mkInputs [] [] []) "//:x"
  = Ok (AddDependency (ex_tgt "t" Inactive [] [] []) (mkLabel "p" "//:x"),
        mkInputs ([] ++ [i]) [] []).
Proof.
exact (proj1 (proj2 (label_inputs_add_dependency ex_pbfl ex_exists ["BUILD"]
  (ex_tgt "t" Inactive [] [] []) (mkInputs [] [] []) "n" "//:x" eq_refl)
  (mkLabel "p" "//:x") "" eq_refl)).
Defined.
End MoreExamples.
